(** * OMR scanner: the recognition-and-scoring engine of [backend/omr_utils.py]

    A shallow embedding of [OMRProcessor] (bubble detector, row grouper,
    answer extractor, evaluator) and of the stand-in processor of
    [backend/mock_omr_utils.py], with the properties the specification
    states about them.

    Conventions of the embedding:
    - a Python [Dict[str, str]] is a [gmap string string]; the loops over
      [answer_key.items()] are [map_fold]s, whose result (a dict and a
      counter) does not depend on the iteration order;
    - a Python [float] is the rational it denotes; every float operation
      is the exact operation followed by [Float.RN], rounding to the
      nearest binary64 number, ties to even;
    - a call that may raise returns [py A], an exception or a value;
    - OpenCV ([cv2]) is not part of the repository: the processor is
      written against the interface [OpenCV], and the logging calls, which
      change no result, are left out. *)

From stdpp Require Import gmap strings list pretty sorting.
From Stdlib Require Import ZArith QArith Ascii Lia.

Open Scope Z_scope.

(* ===================================================================== *)
(** ** Python floats: binary64, round to nearest, ties to even *)
(* ===================================================================== *)

Module Float.

(** [num / den] rounded to the nearest integer, ties to the even one
    ([den] positive). *)
Definition round_half_even (num den : Z) : Z :=
  let q := num / den in
  let r := num mod den in
  if 2 * r <? den then q
  else if den <? 2 * r then q + 1
  else if Z.even q then q else q + 1.

(** Exponent of the least subnormal binary64 number. *)
Definition emin : Z := -1074.

(** [n / d / 2^e] as a fraction of integers. *)
Definition scaled (n d e : Z) : Z * Z :=
  if 0 <=? e then (n, d * 2 ^ e) else (n * 2 ^ (- e), d).

(** The exponent [e] of the binary64 grid around [n / d] (both positive):
    [2^52 <= n / d / 2^e < 2^53], or [e = emin] for subnormal numbers. *)
Definition exponent (n d : Z) : Z :=
  let e0 := Z.log2 n - Z.log2 d - 53 in
  let '(a, b) := scaled n d e0 in
  Z.max (if a <? b * 2 ^ 53 then e0 else e0 + 1) emin.

(** The rational [m * 2^e]. *)
Definition dyadic (m e : Z) : Q :=
  if 0 <=? e then inject_Z (m * 2 ^ e) else Qmake m (Z.to_pos (2 ^ (- e))).

(** Rounding of a rational to binary64. The exponent range is not bounded
    above: Python's overflow to [inf] or [OverflowError] starts at 2^1024,
    far from the ratios and percentages computed here, which produce no
    [nan] either. *)
Definition RN (x : Q) : Q :=
  let n := Qnum x in
  let d := Zpos (Qden x) in
  if n =? 0 then 0%Q
  else
    let e := exponent (Z.abs n) d in
    let '(a, b) := scaled (Z.abs n) d e in
    dyadic (Z.sgn n * round_half_even a b) e.

(** [float(z)], and an [int] operand of a float operation. *)
Definition of_int (z : Z) : Q := RN (inject_Z z).

(** A float literal of the source, such as [0.65]. *)
Definition literal (x : Q) : Q := RN x.

(** [a * b] on floats. *)
Definition mul (a b : Q) : Q := RN (a * b).

(** [a / b] on floats, [b] not zero. *)
Definition div (a b : Q) : Q := RN (a / b).

(** [a / b] on Python [int]s ([b] not zero): the quotient correctly rounded. *)
Definition int_truediv (a b : Z) : Q := RN (inject_Z a / inject_Z b).

(** [round(x, ndigits)] on a float, [ndigits >= 0]: the decimal with
    [ndigits] fractional digits nearest to [x] (ties to even), read back as
    a float. *)
Definition round (x : Q) (ndigits : nat) : Q :=
  let p := 10 ^ Z.of_nat ndigits in
  let y := (x * inject_Z p)%Q in
  RN (Qmake (round_half_even (Qnum y) (Zpos (Qden y))) (Z.to_pos p)).

(** Comparisons of floats are comparisons of their values. *)
Definition ltb (a b : Q) : bool := negb (Qle_bool b a).
Definition leb (a b : Q) : bool := Qle_bool a b.
Definition eqb (a b : Q) : bool := Qeq_bool a b.

End Float.

(* ===================================================================== *)
(** ** Python builtins used by the processors *)
(* ===================================================================== *)

Module builtins.

(** The exceptions the modelled code can raise. *)
Inductive exn : Type :=
  | ValueError (msg : string)
  | ZeroDivisionError (msg : string).

(** A computation that returns a value or raises. *)
Definition py (A : Type) : Type := (exn + A)%type.

Definition raise {A : Type} (e : exn) : py A := inl e.

#[global] Instance py_ret : MRet py := fun A x => inr x.
#[global] Instance py_bind : MBind py := fun A B k c =>
  match c with
  | inl e => inl e
  | inr x => k x
  end.

(** A [for] loop whose body may raise: the first exception ends it. *)
Fixpoint for_each {A S : Type} (body : S -> A -> py S) (l : list A) (s : S) : py S :=
  match l with
  | [] => mret s
  | x :: l' => s' ← body s x; for_each body l' s'
  end.

(** [list.sort(key=...)] and [sorted]: a stable sort, so elements with equal
    keys keep their order; [leb] is the order of the keys. *)
Section Sort.
Context {A K : Type} (key : A -> K) (leb : K -> K -> bool).

Fixpoint insert_by (x : A) (l : list A) : list A :=
  match l with
  | [] => [x]
  | y :: l' => if leb (key x) (key y) then x :: y :: l' else y :: insert_by x l'
  end.

Fixpoint sort_by (l : list A) : list A :=
  match l with
  | [] => []
  | x :: l' => insert_by x (sort_by l')
  end.
End Sort.

(** Order of the tuples [(a, b)] of integers. *)
Definition tuple_leb (p q : Z * Z) : bool :=
  (p.1 <? q.1) || ((p.1 =? q.1) && (p.2 <=? q.2)).

(** [max(l)] on floats: the first of the greatest elements. *)
Fixpoint max_from (m : Q) (l : list Q) : Q :=
  match l with
  | [] => m
  | x :: l' => max_from (if Float.ltb m x then x else m) l'
  end.

Definition max (l : list Q) : py Q :=
  match l with
  | [] => raise (ValueError "max() arg is an empty sequence")
  | x :: l' => mret (max_from x l')
  end.

(** [l.index(v)] on floats: the first position holding a value equal to [v]. *)
Fixpoint index_from (v : Q) (l : list Q) (i : nat) : py nat :=
  match l with
  | [] => raise (ValueError "x is not in list")
  | x :: l' => if Float.eqb x v then mret i else index_from v l' (S i)
  end.

Definition index (l : list Q) (v : Q) : py nat := index_from v l 0.

(** [ord('A')]. *)
Definition ord_A : N := 65.

(** [chr(n)]: the one-character string of code point [n], here in UTF-8. *)
Definition byte_string (bs : list N) : string :=
  foldr (fun b s => String (ascii_of_N b) s) EmptyString bs.

Definition chr (n : N) : py string :=
  let cont (k : N) : N := (128 + (n / 64 ^ k) mod 64)%N in
  if (n <? 128)%N then mret (byte_string [n])
  else if (n <? 2048)%N then mret (byte_string [(192 + n / 64)%N; cont 0%N])
  else if (n <? 65536)%N then
    mret (byte_string [(224 + n / 4096)%N; cont 1%N; cont 0%N])
  else if (n <? 1114112)%N then
    mret (byte_string [(240 + n / 262144)%N; cont 2%N; cont 1%N; cont 0%N])
  else raise (ValueError "chr() arg not in range(0x110000)").

(** [l[start:stop]]: a negative bound counts from the end, and both are
    clipped to the list. *)
Definition slice_bound (i len : Z) : Z :=
  if i <? 0 then Z.max (i + len) 0 else Z.min i len.

Definition slice {A : Type} (l : list A) (start stop : Z) : list A :=
  let len := Z.of_nat (length l) in
  let a := slice_bound start len in
  let b := slice_bound stop len in
  take (Z.to_nat (b - a)) (drop (Z.to_nat a) l).

(** [x / y] with a float divisor. *)
Definition float_truediv (x y : Q) : py Q :=
  if Float.eqb y 0 then raise (ZeroDivisionError "float division by zero")
  else mret (Float.div x y).

End builtins.

(* ===================================================================== *)
(** ** [models.py] *)
(* ===================================================================== *)

Module models.

(** The [processing_info] dictionary both processors build. *)
Record ProcessingInfo : Type := {
  total_bubbles_detected : nat;
  detection_threshold : Q;
  image_processing : string
}.

Record OMRResult : Type := {
  score : nat;
  total : nat;
  percentage : Q;
  marked_answers : gmap string string;
  correct_answers : gmap string string;
  result : gmap string string;
  processing_info : option ProcessingInfo
}.

End models.

(* ===================================================================== *)
(** ** The part of OpenCV the processor calls *)
(* ===================================================================== *)

(** [cv2] is a library, not code of the repository: the processor is
    written against this interface. [imread] gives [None] for a path it
    cannot decode; the other functions are total. A binary map is the list
    of its pixel rows, each pixel 0 or 255. *)
Class OpenCV : Type := {
  ndarray : Type;
  contour : Type;
  imread : string -> option ndarray;
  cvtColor : ndarray -> Z -> ndarray;
  GaussianBlur : ndarray -> Z * Z -> Z -> ndarray;
  adaptiveThreshold : ndarray -> Z -> Z -> Z -> Z -> Z -> list (list Z);
  findContours : list (list Z) -> Z -> Z -> list contour;
  contourArea : contour -> Q;
  boundingRect : contour -> Z * Z * Z * Z;
  COLOR_BGR2GRAY : Z;
  ADAPTIVE_THRESH_GAUSSIAN_C : Z;
  THRESH_BINARY_INV : Z;
  RETR_EXTERNAL : Z;
  CHAIN_APPROX_SIMPLE : Z
}.

(* ===================================================================== *)
(** ** [omr_utils.py] *)
(* ===================================================================== *)

Module omr_utils.
Import builtins models.

(** The attributes [OMRProcessor.__init__] sets. *)
Record OMRProcessor : Type := {
  questions_per_row : nat;
  total_questions : nat;
  bubble_threshold : Q;
  gaussian_blur_kernel : Z * Z;
  threshold_value : Z;
  min_contour_area : Z;
  max_contour_area : Z
}.

Definition __init__ : OMRProcessor := {|
  questions_per_row := 5;
  total_questions := 10;
  bubble_threshold := Float.literal (65 # 100);
  gaussian_blur_kernel := (5, 5);
  threshold_value := 180;
  min_contour_area := 20;
  max_contour_area := 400
|}.

(** The loop state of [_group_bubbles_by_rows]. *)
Record sweep (B : Type) : Type := {
  rows : list (list B);
  current_row : list B;
  current_y : Z
}.
Arguments rows {B} _.
Arguments current_row {B} _.
Arguments current_y {B} _.

(** [enumerate(l, start)]. *)
Fixpoint enumerate {A : Type} (l : list A) (start : nat) : list (nat * A) :=
  match l with
  | [] => []
  | x :: l' => (start, x) :: enumerate l' (S start)
  end.

Section Processor.
Context `{cv : OpenCV}.

(** The dictionary [_detect_bubbles] builds for a kept contour. *)
Record Bubble : Type := {
  b_contour : contour;
  b_x : Z;
  b_y : Z;
  b_w : Z;
  b_h : Z;
  b_area : Q;
  b_center : Z * Z
}.

Variable self : OMRProcessor.

Definition _preprocess_image (image : ndarray) : list (list Z) :=
  let gray := cvtColor image COLOR_BGR2GRAY in
  let blurred := GaussianBlur gray (gaussian_blur_kernel self) 0 in
  adaptiveThreshold blurred 255 ADAPTIVE_THRESH_GAUSSIAN_C THRESH_BINARY_INV 11 2.

(** Body of the loop over the contours: [bubbles] is the list so far. *)
Definition detect_body (bubbles : list Bubble) (c : contour) : py (list Bubble) :=
  let area := contourArea c in
  if Float.ltb (inject_Z (min_contour_area self)) area
     && Float.ltb area (inject_Z (max_contour_area self))
  then
    let '(x, y, w, h) := boundingRect c in
    aspect_ratio ← float_truediv (Float.of_int w) (Float.of_int h);
    if Float.leb (Float.literal (7 # 10)) aspect_ratio
       && Float.leb aspect_ratio (Float.literal (13 # 10))
    then
      mret (bubbles ++ [ {| b_contour := c; b_x := x; b_y := y; b_w := w; b_h := h;
                            b_area := area;
                            b_center := (x + w / 2, y + h / 2) |} ])
    else mret bubbles
  else mret bubbles.

Definition _detect_bubbles (image : list (list Z)) : py (list Bubble) :=
  let contours := findContours image RETR_EXTERNAL CHAIN_APPROX_SIMPLE in
  bubbles ← for_each detect_body contours [];
  mret (sort_by (fun b => (b_y b, b_x b)) tuple_leb bubbles).

(** [current_row.sort(key=lambda b: b['x'])] and [rows.append(current_row)],
    under the guard [if current_row:]. *)
Definition close_row (rs : list (list Bubble)) (row : list Bubble) : list (list Bubble) :=
  match row with
  | [] => rs
  | _ :: _ => rs ++ [sort_by b_x Z.leb row]
  end.

(** Body of the loop over [bubbles[1:]]. *)
Definition group_body (st : sweep Bubble) (bubble : Bubble) : sweep Bubble :=
  if Z.abs (b_y bubble - current_y st) <? 30 then
    {| rows := rows st;
       current_row := current_row st ++ [bubble];
       current_y := current_y st |}
  else
    {| rows := close_row (rows st) (current_row st);
       current_row := [bubble];
       current_y := b_y bubble |}.

Definition _group_bubbles_by_rows (bubbles : list Bubble) : list (list Bubble) :=
  match bubbles with
  | [] => []
  | first :: rest =>
      let st := fold_left group_body rest
                  {| rows := []; current_row := [first]; current_y := b_y first |} in
      close_row (rows st) (current_row st)
  end.

(** The fill ratio of one bubble: the share of pixels equal to 255 in
    [image[y:y+h, x:x+w]], or the integer 0 for an empty region. *)
Definition fill_percentage (image : list (list Z)) (bubble : Bubble) : Q :=
  let '(x, y, w, h) := (b_x bubble, b_y bubble, b_w bubble, b_h bubble) in
  let bubble_region := (fun row => slice row x (x + w)) <$> slice image y (y + h) in
  let total_pixels := sum_list (length <$> bubble_region) in
  let filled_pixels :=
    sum_list ((fun row => length (filter (fun p => p = 255) row)) <$> bubble_region) in
  if (0 <? total_pixels)%nat
  then Float.div (Float.of_int (Z.of_nat filled_pixels)) (Float.of_int (Z.of_nat total_pixels))
  else 0%Q.

(** Body of the loop over [enumerate(bubble_rows, 1)]. *)
Definition analyze_body (image : list (list Z)) (marked_answers : gmap string string)
    (item : nat * list Bubble) : py (gmap string string) :=
  let '(question_num, row_bubbles) := item in
  if negb (length row_bubbles =? questions_per_row self)%nat then mret marked_answers
  else
    let bubble_scores := fill_percentage image <$> row_bubbles in
    max_fill ← max bubble_scores;
    if Float.ltb (bubble_threshold self) max_fill then
      marked_index ← index bubble_scores max_fill;
      marked_letter ← chr (ord_A + N.of_nat marked_index);
      mret (<[pretty question_num := marked_letter]> marked_answers)
    else mret marked_answers.

Definition _analyze_bubbles (image : list (list Z)) (bubbles : list Bubble)
    : py (gmap string string) :=
  let bubble_rows := _group_bubbles_by_rows bubbles in
  for_each (analyze_body image) (enumerate bubble_rows 1) ∅.

(** Body of the loop over [answer_key.items()]: the state is
    [(correct_count, result_details)]. *)
Definition evaluate_body (marked_answers : gmap string string)
    (question_num correct_answer : string) (st : nat * gmap string string)
    : nat * gmap string string :=
  let '(correct_count, result_details) := st in
  let marked_answer := default "" (marked_answers !! question_num) in
  if bool_decide (marked_answer = "") then
    (correct_count, <[question_num := "not_attempted"]> result_details)
  else if bool_decide (marked_answer = correct_answer) then
    (S correct_count, <[question_num := "correct"]> result_details)
  else
    (correct_count, <[question_num := "incorrect"]> result_details).

(** Body of the loop over [answer_key.keys()] that completes the marks. *)
Definition complete_body (marked_answers : gmap string string)
    (question_num : string) (_ : string) (complete : gmap string string)
    : gmap string string :=
  <[question_num := default "" (marked_answers !! question_num)]> complete.

Definition _evaluate_answers (marked_answers answer_key : gmap string string) : OMRResult :=
  let total_questions := size answer_key in
  let '(correct_count, result_details) :=
    map_fold (evaluate_body marked_answers) (0%nat, ∅) answer_key in
  let percentage :=
    if (0 <? total_questions)%nat
    then Float.mul (Float.int_truediv (Z.of_nat correct_count) (Z.of_nat total_questions))
                   (Float.of_int 100)
    else 0%Q in
  let complete_marked_answers :=
    map_fold (complete_body marked_answers) ∅ answer_key in
  let processing_info := {|
    total_bubbles_detected := size marked_answers;
    detection_threshold := bubble_threshold self;
    image_processing := "adaptive_threshold" |} in
  {| score := correct_count;
     total := total_questions;
     percentage := Float.round percentage 2;
     marked_answers := complete_marked_answers;
     correct_answers := answer_key;
     result := result_details;
     processing_info := Some processing_info |}.

(** The [except] clause logs and re-raises: an exception of a stage is the
    exception of the call. *)
Definition process_omr_sheet (image_path : string) (answer_key : gmap string string)
    : py OMRResult :=
  match imread image_path with
  | None => raise (ValueError ("Could not load image from " +:+ image_path))
  | Some image =>
      let processed_image := _preprocess_image image in
      bubbles ← _detect_bubbles processed_image;
      marked_answers ← _analyze_bubbles processed_image bubbles;
      mret (_evaluate_answers marked_answers answer_key)
  end.

End Processor.
End omr_utils.

(* ===================================================================== *)
(** ** [mock_omr_utils.py] *)
(* ===================================================================== *)

Module mock_omr_utils.
Import models.

(** The marks the stand-in processor reports for every image. *)
Definition mock_marked_answers : gmap string string :=
  list_to_map
    [("1", "A"); ("2", "C"); ("3", "C"); ("4", "D"); ("5", "A");
     ("6", ""); ("7", "B"); ("8", "D"); ("9", ""); ("10", "A")].

(** Body of the scoring loop, as written in the stand-in processor. *)
Definition score_body (marked_answers : gmap string string)
    (question_num correct_answer : string) (st : nat * gmap string string)
    : nat * gmap string string :=
  let '(correct_count, result_details) := st in
  let marked_answer := default "" (marked_answers !! question_num) in
  if bool_decide (marked_answer = "") then
    (correct_count, <[question_num := "not_attempted"]> result_details)
  else if bool_decide (marked_answer = correct_answer) then
    (S correct_count, <[question_num := "correct"]> result_details)
  else
    (correct_count, <[question_num := "incorrect"]> result_details).

(** Body of the loop that fills in the missing marks. *)
Definition fill_body (marked_answers : gmap string string)
    (question_num : string) (_ : string) (complete : gmap string string)
    : gmap string string :=
  <[question_num := default "" (marked_answers !! question_num)]> complete.

Definition process_omr_sheet (image_path : string) (answer_key : gmap string string)
    : OMRResult :=
  let marked_answers := mock_marked_answers in
  let total_questions := size answer_key in
  let '(correct_count, result_details) :=
    map_fold (score_body marked_answers) (0%nat, ∅) answer_key in
  let percentage :=
    if (0 <? total_questions)%nat
    then Float.mul (Float.int_truediv (Z.of_nat correct_count) (Z.of_nat total_questions))
                   (Float.of_int 100)
    else 0%Q in
  let complete_marked_answers :=
    map_fold (fill_body marked_answers) ∅ answer_key in
  let processing_info := {|
    total_bubbles_detected :=
      length (filter (fun a => a <> "") (snd <$> map_to_list marked_answers));
    detection_threshold := Float.literal (65 # 100);
    image_processing := "mock_processing" |} in
  {| score := correct_count;
     total := total_questions;
     percentage := Float.round percentage 2;
     marked_answers := complete_marked_answers;
     correct_answers := answer_key;
     result := result_details;
     processing_info := Some processing_info |}.

End mock_omr_utils.

(* ===================================================================== *)
(** ** Vocabulary of the specification *)
(* ===================================================================== *)

Module spec.
Import builtins models omr_utils.

(** The status of question [q] with key letter [c], given the marks. *)
Definition status (marked : gmap string string) (q c : string) : string :=
  let marked_answer := default "" (marked !! q) in
  if bool_decide (marked_answer = "") then "not_attempted"
  else if bool_decide (marked_answer = c) then "correct"
  else "incorrect".

(** An entry of the status map that counts for the score. *)
Definition is_correct (entry : string * string) : Prop := entry.2 = "correct".

#[global] Instance is_correct_dec entry : Decision (is_correct entry) :=
  decide (entry.2 = "correct").

(** Every option of a question has a letter: [chr] accepts the code points
    from [ord('A')] up to the last option. *)
Definition letters_in_range (self : OMRProcessor) : Prop :=
  (ord_A + N.of_nat (questions_per_row self) <= 1114112)%N.

(** [scores[j] = s] is the maximum of [scores], and no earlier score
    reaches it. *)
Definition leftmost_maximum (scores : list Q) (j : nat) (s : Q) : Prop :=
  scores !! j = Some s
  ∧ (∀ k s', scores !! k = Some s' → (s' <= s)%Q)
  ∧ (∀ k s', (k < j)%nat → scores !! k = Some s' → (s' < s)%Q).

(** What a row with mark [o] leaves in the marks. *)
Definition write_mark (question_num : nat) (o : option string)
    (marked : gmap string string) : gmap string string :=
  match o with
  | Some letter => <[pretty question_num := letter]> marked
  | None => marked
  end.

Section WithOpenCV.
Context `{cv : OpenCV}.

(** The sweep as the specification words it: [reference] is the vertical
    coordinate of the first member of the open row [row]; a bubble within
    the tolerance joins the row, any other bubble closes it (sorted left
    to right) and opens the next row with its own coordinate. *)
Fixpoint sweep_rows (reference : Z) (row : list Bubble) (bubbles : list Bubble)
    : list (list Bubble) :=
  match bubbles with
  | [] => [sort_by b_x Z.leb row]
  | b :: rest =>
      if Z.abs (b_y b - reference) <? 30
      then sweep_rows reference (row ++ [b]) rest
      else sort_by b_x Z.leb row :: sweep_rows (b_y b) [b] rest
  end.

Definition row_sweep (bubbles : list Bubble) : list (list Bubble) :=
  match bubbles with
  | [] => []
  | first :: rest => sweep_rows (b_y first) [first] rest
  end.

Definition above (a b : Bubble) : Prop := b_y a <= b_y b.
Definition left_of (a b : Bubble) : Prop := b_x a <= b_x b.

(** The mark [o] of one row: nothing for a degenerate row; for a valid
    row, the letter of the left-most bubble with the greatest fill ratio
    when that ratio exceeds the threshold, and nothing otherwise. *)
Definition row_mark (self : OMRProcessor) (image : list (list Z))
    (row : list Bubble) (o : option string) : Prop :=
  if decide (length row = questions_per_row self) then
    ∃ j s, leftmost_maximum (fill_percentage image <$> row) j s
           ∧ if Float.ltb (bubble_threshold self) s
             then ∃ letter, chr (ord_A + N.of_nat j) = mret letter ∧ o = Some letter
             else o = None
  else o = None.

Definition box_width (c : contour) : Z := let '(_, _, w, _) := boundingRect c in w.
Definition box_height (c : contour) : Z := let '(_, _, _, h) := boundingRect c in h.

(** The contours OpenCV reports for a binary map, as the detector asks. *)
Definition external_contours (image : list (list Z)) : list contour :=
  findContours image RETR_EXTERNAL CHAIN_APPROX_SIMPLE.

(** OpenCV's bounding boxes are at least one pixel high. *)
Definition positive_heights (image : list (list Z)) : Prop :=
  Forall (fun c => 0 < box_height c) (external_contours image).

(** [w / float(h)] as the detector computes it. *)
Definition aspect_ratio (c : contour) : Q :=
  Float.div (Float.of_int (box_width c)) (Float.of_int (box_height c)).

(** The area lies strictly between the two limits. *)
Definition area_within (self : OMRProcessor) (c : contour) : Prop :=
  (inject_Z (min_contour_area self) < contourArea c)%Q
  ∧ (contourArea c < inject_Z (max_contour_area self))%Q.

(** The area lies in the band, limits included. *)
Definition area_in_closed_band (self : OMRProcessor) (c : contour) : Prop :=
  (inject_Z (min_contour_area self) <= contourArea c)%Q
  ∧ (contourArea c <= inject_Z (max_contour_area self))%Q.

(** The aspect ratio lies between the floats 0.7 and 1.3, limits included. *)
Definition roughly_circular (c : contour) : Prop :=
  (Float.literal (7 # 10) <= aspect_ratio c)%Q
  ∧ (aspect_ratio c <= Float.literal (13 # 10))%Q.

(** The two tests of the detector on one contour. *)
Definition keeps (self : OMRProcessor) (c : contour) : bool :=
  Float.ltb (inject_Z (min_contour_area self)) (contourArea c)
  && Float.ltb (contourArea c) (inject_Z (max_contour_area self))
  && (Float.leb (Float.literal (7 # 10)) (aspect_ratio c)
      && Float.leb (aspect_ratio c) (Float.literal (13 # 10))).

(** The dictionary appended for a kept contour. *)
Definition bubble_of (c : contour) : Bubble :=
  let '(x, y, w, h) := boundingRect c in
  {| b_contour := c; b_x := x; b_y := y; b_w := w; b_h := h;
     b_area := contourArea c; b_center := (x + w / 2, y + h / 2) |}.

(** The filter with the band of areas read as closed: a contour becomes a
    bubble exactly when its area is in [[min_area, max_area]] and its
    aspect ratio in [[0.7, 1.3]]. *)
Definition closed_band_filter (self : OMRProcessor) (image : list (list Z)) : Prop :=
  ∃ bubbles, _detect_bubbles self image = mret bubbles
    ∧ ∀ c, c ∈ external_contours image →
        (bubble_of c ∈ bubbles ↔ area_in_closed_band self c ∧ roughly_circular c).
End WithOpenCV.

End spec.

(* ===================================================================== *)
(** ** A synthetic sheet *)
(* ===================================================================== *)

(** A stand-in for OpenCV on one synthetic sheet of three questions, used to
    run the processor on concrete data. Images are already binary maps;
    a contour is its area with its bounding box [(x, y, w, h)];
    [findContours] reports the same contours for every map. The boxes
    of the bubbles are 6 by 6 pixels, their area is 25. Question 1 (y = 0) has five bubbles, the second
    filled; question 2 (y = 40) has four bubbles; question 3 (y = 80) has
    five bubbles, the first half filled. Two more contours are not bubbles:
    one of area exactly 20, one twice as wide as high. *)
Module sheet.
Import builtins models omr_utils.

Definition box (area : Q) (x y w h : Z) : Q * (Z * Z * Z * Z) := (area, (x, y, w, h)).

Definition contours : list (Q * (Z * Z * Z * Z)) :=
  [ box 25 20 81 6 6; box 25 0 80 6 6; box 25 40 0 6 6; box 25 10 41 6 6;
    box 20 50 0 5 6; box 25 30 0 6 6; box 25 0 0 6 6; box 25 10 1 6 6;
    box 25 20 0 6 6; box 25 0 40 6 6; box 25 20 40 6 6; box 25 30 42 6 6;
    box 55 50 40 12 6; box 25 10 80 6 6; box 25 30 80 6 6; box 25 40 82 6 6 ].

(** The pixel in row [r] and column [c] of the thresholded sheet. *)
Definition pixel (r c : Z) : Z :=
  if (1 <=? r) && (r <? 7) && (10 <=? c) && (c <? 16) then 255
  else if (40 <=? r) && (r <? 46) && (20 <=? c) && (c <? 26) then 255
  else if (80 <=? r) && (r <? 83) && (0 <=? c) && (c <? 6) then 255
  else 0.

Definition pixels : list (list Z) :=
  (fun r => (fun c => pixel r c) <$> seqZ 0 46) <$> seqZ 0 90.

#[global] Instance cv : OpenCV := {|
  ndarray := list (list Z);
  contour := Q * (Z * Z * Z * Z);
  imread := fun path => if decide (path = "sheet.png") then Some pixels else None;
  cvtColor := fun image _ => image;
  GaussianBlur := fun image _ _ => image;
  adaptiveThreshold := fun image _ _ _ _ _ => image;
  findContours := fun _ _ _ => contours;
  contourArea := fst;
  boundingRect := snd;
  COLOR_BGR2GRAY := 6;
  ADAPTIVE_THRESH_GAUSSIAN_C := 1;
  THRESH_BINARY_INV := 1;
  RETR_EXTERNAL := 0;
  CHAIN_APPROX_SIMPLE := 2
|}.

(** The bubbles the detector returns on the sheet, in its order. *)
Definition bubbles : list Bubble :=
  List.map spec.bubble_of
    [ box 25 0 0 6 6; box 25 20 0 6 6; box 25 30 0 6 6; box 25 40 0 6 6;
      box 25 10 1 6 6;
      box 25 0 40 6 6; box 25 20 40 6 6; box 25 10 41 6 6; box 25 30 42 6 6;
      box 25 0 80 6 6; box 25 10 80 6 6; box 25 30 80 6 6; box 25 20 81 6 6;
      box 25 40 82 6 6 ].

(** The rows of questions 1 and 2, left to right. *)
Definition question_1 : list Bubble :=
  List.map spec.bubble_of
    [ box 25 0 0 6 6; box 25 10 1 6 6; box 25 20 0 6 6; box 25 30 0 6 6;
      box 25 40 0 6 6 ].

Definition question_2 : list Bubble :=
  List.map spec.bubble_of
    [ box 25 0 40 6 6; box 25 10 41 6 6; box 25 20 40 6 6; box 25 30 42 6 6 ].

(** The contour whose area is exactly the lower limit. *)
Definition speck : Q * (Z * Z * Z * Z) := box 20 50 0 5 6.

(** The answer key and the marks of the end-to-end scenario. *)
Definition answer_key : gmap string string :=
  list_to_map [("1", "A"); ("2", "B"); ("3", "C")].

Definition marks : gmap string string :=
  list_to_map [("1", "A"); ("2", "C"); ("3", "")].

End sheet.

(* ===================================================================== *)
(** ** [pdf_generator.py], [batch_omr_app.py] and [enhanced_models.py] *)
(* ===================================================================== *)


(** What [pdf_generator.py] hands to ReportLab: flowables built by
    constructor calls. The commands of every [setStyle] call on a table are
    kept in the order of the calls. *)
Module reportlab.

Inductive style_arg : Type :=
  | Color (name : string)
  | Number (n : Z)
  | Text (s : string).

Record command : Type := {
  operation : string;
  first_cell : Z * Z;
  last_cell : Z * Z;
  arguments : list style_arg
}.

Inductive flowable : Type :=
  | Paragraph (text : string) (style : string)
  | Spacer (width height : Z)
  | PageBreak
  | Table (data : list (list string)) (colWidths : list Q) (commands : list command).

(** [reportlab.lib.units.inch], the float 72.0. *)
Definition inch : Q := Float.literal 72.

End reportlab.

Module pdf_generator.
Import models reportlab.

(** The exceptions of the report generator. Only the message of
    [AttributeError] is kept. *)
Inductive error : Type :=
  | AttributeError (msg : string)
  | ValueError
  | ZeroDivisionError
  | OSError.

Definition report (A : Type) : Type := (error + A)%type.

Definition fail {A : Type} (e : error) : report A := inl e.

#[global] Instance report_ret : MRet report := fun A x => inr x.
#[global] Instance report_bind : MBind report := fun A B k c =>
  match c with
  | inl e => inl e
  | inr x => k x
  end.

(** The values found in a result dictionary of the batch: [None], a string,
    the student information (a dictionary of strings) and an [OMRResult]. *)
Inductive value : Type :=
  | VNone
  | VStr (s : string)
  | VDict (d : gmap string string)
  | VResult (r : OMRResult).

(** [bool(v)]. *)
Definition truthy (v : value) : bool :=
  match v with
  | VNone => false
  | VStr s => negb (bool_decide (s = ""))
  | VDict d => negb (bool_decide (d = ∅))
  | VResult _ => true
  end.

Definition type_name (v : value) : string :=
  match v with
  | VNone => "NoneType"
  | VStr _ => "str"
  | VDict _ => "dict"
  | VResult _ => "OMRResult"
  end.

Definition no_attribute {A : Type} (v : value) (name : string) : report A :=
  fail (AttributeError
          ("'" +:+ type_name v +:+ "' object has no attribute '" +:+ name +:+ "'")).

(** [v.score], [v.percentage], ...: [field] reads the attribute [name]. *)
Definition attribute {A : Type} (name : string) (field : OMRResult -> A) (v : value)
    : report A :=
  match v with
  | VResult r => mret (field r)
  | _ => no_attribute v name
  end.

(** [v.get(key, default)] on the student information. *)
Definition get (v : value) (key default_value : string) : report string :=
  match v with
  | VDict d => mret (default default_value (d !! key))
  | _ => no_attribute v "get"
  end.

(** [[field(r['omr_result']) for r in results if 'omr_result' in r]]. *)
Fixpoint collect {A : Type} (read : value -> report A) (results : list (gmap string value))
    : report (list A) :=
  match results with
  | [] => mret []
  | r :: rest =>
      match r !! "omr_result" with
      | None => collect read rest
      | Some v => x ← read v; xs ← collect read rest; mret (x :: xs)
      end
  end.

(** [a / b] on [int]s. *)
Definition int_truediv (a b : Z) : report Q :=
  if b =? 0 then fail ZeroDivisionError else mret (Float.int_truediv a b).

(** [x / n] with a float [x] and an [int] [n]. *)
Definition float_truediv (x : Q) (n : Z) : report Q :=
  if n =? 0 then fail ZeroDivisionError else mret (Float.div x (Float.of_int n)).

(** [max(l)] and [min(l)] on [int]s. *)
Definition int_max (l : list nat) : report nat :=
  match l with
  | [] => fail ValueError
  | first :: others => mret (fold_left Nat.max others first)
  end.

Definition int_min (l : list nat) : report nat :=
  match l with
  | [] => fail ValueError
  | first :: others => mret (fold_left Nat.min others first)
  end.

(** A cell of a row of the CSV summary. *)
Inductive cell : Type :=
  | CStr (s : string)
  | CInt (n : nat)
  | CFloat (x : Q).

(** [OMRReportGenerator._calculate_grade]. *)
Definition _calculate_grade (percentage : Q) : string :=
  if Float.leb 90 percentage then "A+"
  else if Float.leb 80 percentage then "A"
  else if Float.leb 70 percentage then "B+"
  else if Float.leb 60 percentage then "B"
  else if Float.leb 50 percentage then "C"
  else if Float.leb 40 percentage then "D"
  else "F".

Definition style (op : string) (first last : Z * Z) (args : list style_arg) : command :=
  {| operation := op; first_cell := first; last_cell := last; arguments := args |}.

Section Formatting.
(** Builtins of Python the generator formats numbers with: [f"{x:.1f}"],
    [f"{x}"] and [sum] on floats. *)
Variable format_1f : Q -> string.
Variable float_str : Q -> string.
Variable float_sum : list Q -> Q.
(** Whether [int(x)] accepts the string [x]. *)
Variable int_accepts : string -> bool.
(** [pd.DataFrame(data).to_csv(path, index=False)] in the file system of
    the call: it returns, or raises (an [OSError] when the file cannot be
    written). *)
Variable to_csv : list (gmap string cell) -> string -> report unit.

(** [_create_summary_section]. [if scores:] tests the list of scores; the
    divisions, [max] and [min] below it raise on an empty list. *)
Definition _create_summary_section (results : list (gmap string value))
    : report (list flowable) :=
  let elements := [Paragraph "Summary Statistics" "CustomHeading"] in
  scores ← collect (attribute "score" models.score) results;
  percentages ← collect (attribute "percentage" models.percentage) results;
  if bool_decide (scores = []) then mret elements
  else
    avg_score ← int_truediv (Z.of_nat (sum_list scores)) (Z.of_nat (length scores));
    avg_percentage ←
      float_truediv (float_sum percentages) (Z.of_nat (length percentages));
    max_score ← int_max scores;
    min_score ← int_min scores;
    let passed := length (filter (fun p => Float.leb 60 p) percentages) in
    let failed := (length percentages - passed)%nat in
    pass_rate ← int_truediv (Z.of_nat passed) (Z.of_nat (length percentages));
    let stats_data :=
      [ ["Metric"; "Value"];
        ["Total Students"; pretty (length results)];
        ["Average Score"; format_1f avg_score];
        ["Average Percentage"; format_1f avg_percentage +:+ "%"];
        ["Highest Score"; pretty max_score];
        ["Lowest Score"; pretty min_score];
        ["Students Passed (≥60%)"; pretty passed];
        ["Students Failed (<60%)"; pretty failed];
        ["Pass Rate"; format_1f (Float.mul pass_rate (Float.of_int 100)) +:+ "%"] ] in
    let stats_table :=
      Table stats_data
        [Float.mul (Float.literal (5 # 2)) inch; Float.mul (Float.of_int 2) inch]
        [ style "BACKGROUND" (0, 0) (-1, 0) [Color "darkblue"];
          style "TEXTCOLOR" (0, 0) (-1, 0) [Color "whitesmoke"];
          style "ALIGN" (0, 0) (-1, -1) [Text "CENTER"];
          style "FONTNAME" (0, 0) (-1, 0) [Text "Helvetica-Bold"];
          style "FONTSIZE" (0, 0) (-1, 0) [Number 12];
          style "BOTTOMPADDING" (0, 0) (-1, 0) [Number 12];
          style "BACKGROUND" (0, 1) (-1, -1) [Color "beige"];
          style "GRID" (0, 0) (-1, -1) [Number 1; Color "black"] ] in
    mret (elements ++ [stats_table; Spacer 1 20]).

(** Body of the loop of [_create_detailed_results_table] over
    [enumerate(results, 1)]. *)
Definition detailed_row (table_data : list (list string))
    (item : nat * gmap string value) : report (list (list string)) :=
  let '(i, result) := item in
  let student_info := default (VDict ∅) (result !! "student_info") in
  let omr_result := default VNone (result !! "omr_result") in
  if truthy omr_result then
    name ← get student_info "name" "Unknown";
    roll ← get student_info "roll_number" "Unknown";
    score ← attribute "score" models.score omr_result;
    total ← attribute "total" models.total omr_result;
    percentage ← attribute "percentage" models.percentage omr_result;
    let grade := _calculate_grade percentage in
    mret (table_data ++
            [[pretty i; name; roll; pretty score; pretty total;
              float_str percentage +:+ "%"; grade]])
  else mret table_data.

Fixpoint rows_loop (items : list (nat * gmap string value))
    (table_data : list (list string)) : report (list (list string)) :=
  match items with
  | [] => mret table_data
  | item :: rest => table_data' ← detailed_row table_data item; rows_loop rest table_data'
  end.

(** The commands of the loop over [range(1, len(table_data))] that shades
    the even rows. *)
Definition shading (count : nat) : list command :=
  (fun i => style "BACKGROUND" (0, Z.of_nat i) (-1, Z.of_nat i) [Color "lightgrey"])
    <$> filter (fun i => (i mod 2 = 0)%nat) (seq 1 (count - 1)).

Definition _create_detailed_results_table (results : list (gmap string value))
    : report (list flowable) :=
  let elements := [Paragraph "Detailed Results" "CustomHeading"] in
  table_data ←
    rows_loop (omr_utils.enumerate results 1)
      [["S.No."; "Name"; "Roll Number"; "Score"; "Total"; "Percentage"; "Grade"]];
  let results_table :=
    Table table_data
      [ Float.mul (Float.literal (1 # 2)) inch; Float.mul (Float.of_int 2) inch;
        Float.mul (Float.literal (12 # 10)) inch; Float.mul (Float.literal (7 # 10)) inch;
        Float.mul (Float.literal (7 # 10)) inch; Float.mul (Float.of_int 1) inch;
        Float.mul (Float.literal (8 # 10)) inch ]
      ([ style "BACKGROUND" (0, 0) (-1, 0) [Color "darkblue"];
         style "TEXTCOLOR" (0, 0) (-1, 0) [Color "whitesmoke"];
         style "ALIGN" (0, 0) (-1, -1) [Text "CENTER"];
         style "FONTNAME" (0, 0) (-1, 0) [Text "Helvetica-Bold"];
         style "FONTSIZE" (0, 0) (-1, 0) [Number 10];
         style "BOTTOMPADDING" (0, 0) (-1, 0) [Number 12];
         style "BACKGROUND" (0, 1) (-1, -1) [Color "white"];
         style "GRID" (0, 0) (-1, -1) [Number 1; Color "black"];
         style "FONTSIZE" (0, 1) (-1, -1) [Number 9] ]
       ++ shading (length table_data)) in
  mret (elements ++ [results_table; PageBreak]).

(** Body of the loop over the question numbers: the three columns of [q_num]. *)
Definition question_columns (omr_result : OMRResult) (q_num : string) (_ : string)
    (row : gmap string cell) : gmap string cell :=
  <["Q" +:+ q_num +:+ "_Result" := CStr (default "" (result omr_result !! q_num))]>
    (<["Q" +:+ q_num +:+ "_Correct" :=
         CStr (default "" (correct_answers omr_result !! q_num))]>
       (<["Q" +:+ q_num +:+ "_Marked" :=
            CStr (default "" (marked_answers omr_result !! q_num))]> row)).

(** Body of the loop of [generate_summary_csv] over the results. The first
    attribute read from [omr_result] is [score]. The question numbers are
    visited in the order of [sorted(..., key=int)], which raises when [int]
    rejects one of them; the row does not depend on that order. *)
Definition csv_row (data : list (gmap string cell)) (entry : gmap string value)
    : report (list (gmap string cell)) :=
  let student_info := default (VDict ∅) (entry !! "student_info") in
  let omr_result := default VNone (entry !! "omr_result") in
  if truthy omr_result then
    name ← get student_info "name" "Unknown";
    roll ← get student_info "roll_number" "Unknown";
    match omr_result with
    | VResult r =>
        let row : gmap string cell :=
          <["Grade" := CStr (_calculate_grade (percentage r))]>
            (<["Percentage" := CFloat (percentage r)]>
               (<["Total" := CInt (total r)]>
                  (<["Score" := CInt (score r)]>
                     (<["Roll_Number" := CStr roll]>
                        (<["Name" := CStr name]> ∅))))) in
        if bool_decide (map_Forall (fun q _ => int_accepts q = true) (correct_answers r))
        then mret (data ++ [map_fold (question_columns r) row (correct_answers r)])
        else fail ValueError
    | _ => no_attribute omr_result "score"
    end
  else mret data.

Fixpoint csv_loop (entries : list (gmap string value)) (data : list (gmap string cell))
    : report (list (gmap string cell)) :=
  match entries with
  | [] => mret data
  | entry :: rest => data' ← csv_row data entry; csv_loop rest data'
  end.

(** [generate_summary_csv]: the rows are written with pandas and the path
    is returned. The [except] clause logs and re-raises, so an exception of
    the loop or of the write is the exception of the call. *)
Definition generate_summary_csv (results : list (gmap string value)) (output_path : string)
    : report string :=
  data ← csv_loop results [];
  _ ← to_csv data output_path;
  mret output_path.

End Formatting.
End pdf_generator.

Module batch_omr_app.
Import pdf_generator.

(** [calculate_grade]: the tests [percentage >= 90], ... compare the float
    with an integer by value. *)
Definition calculate_grade (percentage : Q) : string :=
  if Float.leb 90 percentage then "A+"
  else if Float.leb 80 percentage then "A"
  else if Float.leb 70 percentage then "B+"
  else if Float.leb 60 percentage then "B"
  else if Float.leb 50 percentage then "C"
  else if Float.leb 40 percentage then "D"
  else "F".

(** The entry [process_all_sheets] records for a sheet whose processing
    raised [error]. *)
Definition error_result (filename error : string) : gmap string value :=
  <["omr_result" := VNone]>
    (<["student_info" :=
         VDict (<["roll_number" := "Error"]> (<["name" := "Error"]> ∅))]>
       (<["error" := VStr error]> (<["filename" := VStr filename]> ∅))).

End batch_omr_app.

Module enhanced_models.

(** The default of [ReportConfig.grade_scale]. *)
Definition grade_scale : gmap string (Z * Z) :=
  list_to_map
    [("A+", (90, 100)); ("A", (80, 89)); ("B+", (70, 79)); ("B", (60, 69));
     ("C", (50, 59)); ("D", (40, 49)); ("F", (0, 39))].

End enhanced_models.

(* ===================================================================== *)
(** ** Further vocabulary *)
(* ===================================================================== *)

Module vocabulary.
Import builtins models omr_utils spec.

(** An entry of the status map with status [s]. *)
Definition has_status (s : string) (entry : string * string) : Prop := entry.2 = s.

#[global] Instance has_status_dec s entry : Decision (has_status s entry) :=
  decide (entry.2 = s).

(** Two sets of marks that give the same letter, or both none, to every
    question of the key. *)
Definition same_marks_on (key marked1 marked2 : gmap string string) : Prop :=
  ∀ q, q ∈ dom key → default "" (marked1 !! q) = default "" (marked2 !! q).

(** The grades from the lowest to the highest. *)
Definition grade_rank (grade : string) : nat :=
  if decide (grade = "A+") then 6
  else if decide (grade = "A") then 5
  else if decide (grade = "B+") then 4
  else if decide (grade = "B") then 3
  else if decide (grade = "C") then 2
  else if decide (grade = "D") then 1
  else 0.

(** A result graded "B" or better. *)
Definition grade_b_or_better (r : OMRResult) : Prop :=
  (3 ≤ grade_rank (pdf_generator._calculate_grade (percentage r)))%nat.

#[global] Instance grade_b_or_better_dec r : Decision (grade_b_or_better r) :=
  decide (3 ≤ grade_rank (pdf_generator._calculate_grade (percentage r)))%nat.

(** A result that reaches the pass mark of 60 percent. *)
Definition passes (r : OMRResult) : Prop := (60 <= percentage r)%Q.

#[global] Instance passes_dec r : Decision (passes r) :=
  match Qlt_le_dec (percentage r) 60 with
  | left below => right (Qlt_not_le _ _ below)
  | right reached => left reached
  end.

(** [high] is the greatest and [low] the least of the scores. *)
Definition highest (scores : list nat) (high : nat) : Prop :=
  high ∈ scores ∧ ∀ s, s ∈ scores → (s ≤ high)%nat.

Definition lowest (scores : list nat) (low : nat) : Prop :=
  low ∈ scores ∧ ∀ s, s ∈ scores → (low ≤ s)%nat.

(** The statistics of a batch of [count] entries whose graded results are
    [rs], with highest score [high] and lowest score [low], as the rows of
    the table of the summary. *)
Definition statistics (format_1f : Q -> string) (float_sum : list Q -> Q)
    (count : nat) (rs : list OMRResult) (high low : nat) : list (list string) :=
  let graded_count := Z.of_nat (length rs) in
  let passed := length (filter passes rs) in
  let failed := length (filter (fun r => ¬ passes r) rs) in
  [ ["Metric"; "Value"];
    ["Total Students"; pretty count];
    ["Average Score";
     format_1f (Float.int_truediv (Z.of_nat (sum_list (score <$> rs))) graded_count)];
    ["Average Percentage";
     format_1f (Float.div (float_sum (percentage <$> rs)) (Float.of_int graded_count))
     +:+ "%"];
    ["Highest Score"; pretty high];
    ["Lowest Score"; pretty low];
    ["Students Passed (≥60%)"; pretty passed];
    ["Students Failed (<60%)"; pretty failed];
    ["Pass Rate";
     format_1f (Float.mul (Float.int_truediv (Z.of_nat passed) graded_count)
                          (Float.of_int 100)) +:+ "%"] ].

(** The column widths and the style of the table of the summary. *)
Definition statistics_widths : list Q :=
  [Float.mul (Float.literal (5 # 2)) reportlab.inch;
   Float.mul (Float.of_int 2) reportlab.inch].

Definition statistics_style : list reportlab.command :=
  [ pdf_generator.style "BACKGROUND" (0, 0) (-1, 0) [reportlab.Color "darkblue"];
    pdf_generator.style "TEXTCOLOR" (0, 0) (-1, 0) [reportlab.Color "whitesmoke"];
    pdf_generator.style "ALIGN" (0, 0) (-1, -1) [reportlab.Text "CENTER"];
    pdf_generator.style "FONTNAME" (0, 0) (-1, 0) [reportlab.Text "Helvetica-Bold"];
    pdf_generator.style "FONTSIZE" (0, 0) (-1, 0) [reportlab.Number 12];
    pdf_generator.style "BOTTOMPADDING" (0, 0) (-1, 0) [reportlab.Number 12];
    pdf_generator.style "BACKGROUND" (0, 1) (-1, -1) [reportlab.Color "beige"];
    pdf_generator.style "GRID" (0, 0) (-1, -1)
      [reportlab.Number 1; reportlab.Color "black"] ].

(** The result of a graded entry of a batch. *)
Definition graded (entry : gmap string pdf_generator.value) : option OMRResult :=
  match entry !! "omr_result" with
  | Some (pdf_generator.VResult r) => Some r
  | _ => None
  end.

(** An entry that has the key ['omr_result'] with no result under it. *)
Definition holds_no_result (entry : gmap string pdf_generator.value) : Prop :=
  ∃ v, entry !! "omr_result" = Some v ∧ ∀ r, v ≠ pdf_generator.VResult r.

#[global] Instance holds_no_result_dec entry : Decision (holds_no_result entry).
Proof.
  unfold holds_no_result.
  destruct (entry !! "omr_result") as [v|] eqn:Hv.
  - destruct v as [|s|d|r].
    + left. exists pdf_generator.VNone. split; [done|]. discriminate.
    + left. exists (pdf_generator.VStr s). split; [done|]. discriminate.
    + left. exists (pdf_generator.VDict d). split; [done|]. discriminate.
    + right. intros (v & [= <-] & Hno). by apply (Hno r).
  - right. by intros (v & ? & _).
Defined.

(** An entry as the batch application builds them: the result is an
    [OMRResult], [None] or missing, and the student information, when
    present, is a dictionary. *)
Definition well_formed (entry : gmap string pdf_generator.value) : Prop :=
  (entry !! "omr_result" = None
   ∨ entry !! "omr_result" = Some pdf_generator.VNone
   ∨ ∃ r, entry !! "omr_result" = Some (pdf_generator.VResult r))
  ∧ (entry !! "student_info" = None
     ∨ ∃ d, entry !! "student_info" = Some (pdf_generator.VDict d)).

(** [info.get(key, 'Unknown')] on the student information of an entry. *)
Definition student (entry : gmap string pdf_generator.value) (key : string) : string :=
  match entry !! "student_info" with
  | Some (pdf_generator.VDict d) => default "Unknown" (d !! key)
  | _ => "Unknown"
  end.

(** The characters of a string. *)
Fixpoint letters (s : string) : list ascii :=
  match s with
  | EmptyString => []
  | String c s' => c :: letters s'
  end.

(** The row of the detailed table for the graded entry [entry] at
    position [i] of the batch. *)
Definition detail (float_str : Q -> string) (i : nat)
    (entry : gmap string pdf_generator.value) : option (list string) :=
  r ← graded entry;
  Some [pretty i; student entry "name"; student entry "roll_number";
        pretty (score r); pretty (total r); float_str (percentage r) +:+ "%";
        pdf_generator._calculate_grade (percentage r)].

(** The graded entries of a batch with their results, in batch order. *)
Definition graded_entries (results : list (gmap string pdf_generator.value))
    : list (gmap string pdf_generator.value * OMRResult) :=
  omap (fun entry => r ← graded entry; Some (entry, r)) results.

(** [int] accepts every question number of the key of the result. *)
Definition numbered (int_accepts : string -> bool) (r : OMRResult) : Prop :=
  map_Forall (fun q (_ : string) => int_accepts q = true) (correct_answers r).

(** The row of the CSV summary for [entry] and its result [r]: the six
    columns of the student, and three columns for every question of the
    key. *)
Definition csv_row_of (item : gmap string pdf_generator.value * OMRResult)
    (row : gmap string pdf_generator.cell) : Prop :=
  let '(entry, r) := item in
  row !! "Name" = Some (pdf_generator.CStr (student entry "name"))
  ∧ row !! "Roll_Number" = Some (pdf_generator.CStr (student entry "roll_number"))
  ∧ row !! "Score" = Some (pdf_generator.CInt (score r))
  ∧ row !! "Total" = Some (pdf_generator.CInt (total r))
  ∧ row !! "Percentage" = Some (pdf_generator.CFloat (percentage r))
  ∧ row !! "Grade"
    = Some (pdf_generator.CStr (pdf_generator._calculate_grade (percentage r)))
  ∧ ∀ q c, correct_answers r !! q = Some c →
      row !! ("Q" +:+ q +:+ "_Marked")
      = Some (pdf_generator.CStr (default "" (marked_answers r !! q)))
      ∧ row !! ("Q" +:+ q +:+ "_Correct") = Some (pdf_generator.CStr c)
      ∧ row !! ("Q" +:+ q +:+ "_Result")
        = Some (pdf_generator.CStr (default "" (result r !! q))).

Section WithOpenCV.
Context `{cv : OpenCV}.

(** The order of the detector's sort: by [y], then by [x]. *)
Definition position_le (a b : Bubble) : Prop :=
  b_y a < b_y b ∨ (b_y a = b_y b ∧ b_x a <= b_x b).

(** All bubbles of the row are less than 30 apart vertically. *)
Definition within_band (row : list Bubble) : Prop :=
  ∀ a b, a ∈ row → b ∈ row → Z.abs (b_y a - b_y b) < 30.

(** Every bubble of [upper] is above every bubble of [lower], and the
    top-most bubble of [upper] is at least 30 above all of [lower]. *)
Definition separated (upper lower : list Bubble) : Prop :=
  (∀ a b, a ∈ upper → b ∈ lower → b_y a < b_y b)
  ∧ (∃ a, a ∈ upper ∧ ∀ b, b ∈ lower → b_y a + 30 <= b_y b).

End WithOpenCV.

End vocabulary.

(* ===================================================================== *)
(** ** A sample batch *)
(* ===================================================================== *)

(** Two graded sheets and a failed one, with stand-ins for the number
    formats of Python, to run the report generator on concrete data. *)
Module batch.
Import models omr_utils pdf_generator batch_omr_app.

(** A float shown as its numerator over its denominator. *)
Definition show (x : Q) : string := pretty (Qnum x) +:+ "/" +:+ pretty (Z.pos (Qden x)).

(** The sum of floats from left to right. *)
Definition add_up (xs : list Q) : Q := fold_left (fun acc x => Float.RN (acc + x)) xs 0%Q.

(** A stand-in for what [int] accepts: the non-empty strings of decimal
    digits. Python's [int] accepts more, such as signs and blanks. *)
Definition digits (s : string) : bool :=
  negb (bool_decide (s = ""))
  && forallb (fun c => bool_decide (is_Some (Ascii.is_nat c))) (vocabulary.letters s).

Definition graded_sheet (name roll : string) (marks : gmap string string)
    : gmap string value :=
  <["omr_result" := VResult (_evaluate_answers __init__ marks sheet.answer_key)]>
    (<["student_info" := VDict (<["roll_number" := roll]> (<["name" := name]> ∅))]> ∅).

Definition results : list (gmap string value) :=
  [ graded_sheet "JOHN SMITH" "2024001" sheet.marks;
    error_result "blurred.png" "Could not load image";
    graded_sheet "ALICE JOHNSON" "2024002" sheet.answer_key ].

(** The graded sheets alone. *)
Definition graded_results : list (gmap string value) :=
  [ graded_sheet "JOHN SMITH" "2024001" sheet.marks;
    graded_sheet "ALICE JOHNSON" "2024002" sheet.answer_key ].

(** A sheet graded against a key whose question is named, not numbered. *)
Definition named_question : gmap string string := {[ "Q1" := "A" ]}.

(** A file system in which every path but the empty one can be written. *)
Definition write (rows : list (gmap string cell)) (path : string) : report unit :=
  if bool_decide (path = "") then fail OSError else mret ().

Definition lettered_sheet : gmap string value :=
  <["omr_result" := VResult (_evaluate_answers __init__ ∅ named_question)]> ∅.

End batch.

(** A stand-in for OpenCV on a sheet where the only contours are a speck
    and a rule line. *)
Module smudged.
Import omr_utils.

Definition contours : list (Q * (Z * Z * Z * Z)) :=
  [ sheet.box 20 50 0 5 6; sheet.box 55 50 40 12 6 ].

Definition cv : OpenCV := {|
  ndarray := list (list Z);
  contour := Q * (Z * Z * Z * Z);
  imread := fun path => if decide (path = "smudged.png") then Some sheet.pixels else None;
  cvtColor := fun image _ => image;
  GaussianBlur := fun image _ _ => image;
  adaptiveThreshold := fun image _ _ _ _ _ => image;
  findContours := fun _ _ _ => contours;
  contourArea := fst;
  boundingRect := snd;
  COLOR_BGR2GRAY := 6;
  ADAPTIVE_THRESH_GAUSSIAN_C := 1;
  THRESH_BINARY_INV := 1;
  RETR_EXTERNAL := 0;
  CHAIN_APPROX_SIMPLE := 2
|}.

End smudged.

Import builtins models omr_utils spec.


(* ===================================================================== *)
(** ** Bounds on rounded floats *)
(* ===================================================================== *)

Section FloatBounds.
Import Float.

Lemma round_half_even_nonneg num den :
  0 <= num -> 0 < den -> 0 <= round_half_even num den.
Proof.
  intros Hn Hd. unfold round_half_even.
  assert (0 <= num / den) by (apply Z.div_pos; lia).
  repeat case_match; lia.
Qed.

(** A quotient below an integer rounds below it. *)
Lemma round_half_even_le num den k :
  0 < den -> num <= k * den -> round_half_even num den <= k.
Proof.
  intros Hd Hle. unfold round_half_even.
  pose proof (Z.div_mod num den ltac:(lia)) as Hdm.
  pose proof (Z.mod_pos_bound num den Hd) as Hr.
  destruct (2 * (num mod den) <? den) eqn:Hlt.
  - apply Z.ltb_lt in Hlt. nia.
  - apply Z.ltb_ge in Hlt. assert (num / den + 1 <= k) by nia.
    repeat case_match; lia.
Qed.

Lemma scaled_pos n d e a b :
  0 < n -> 0 < d -> scaled n d e = (a, b) -> 0 < a /\ 0 < b.
Proof.
  intros Hn Hd. unfold scaled. destruct (0 <=? e) eqn:He; intros [= <- <-].
  - apply Z.leb_le in He. pose proof (Z.pow_pos_nonneg 2 e). nia.
  - apply Z.leb_gt in He. pose proof (Z.pow_pos_nonneg 2 (- e)). nia.
Qed.

Lemma dyadic_nonneg m e : 0 <= m -> (0 <= dyadic m e)%Q.
Proof.
  intros Hm. unfold dyadic. destruct (0 <=? e) eqn:He.
  - apply Z.leb_le in He. pose proof (Z.pow_pos_nonneg 2 e).
    unfold Qle; simpl. nia.
  - unfold Qle; simpl. lia.
Qed.

(** The grid of a positive number not above [2^52] has a non-positive
    exponent: every integer lies on it. *)
Lemma exponent_nonpos n d :
  0 < n -> 0 < d -> n <= 2 ^ 52 * d -> exponent n d <= 0.
Proof.
  intros Hn Hd Hle. unfold exponent.
  assert (Z.log2 n <= 52 + Z.log2 d) as Hlog.
  { rewrite <-Z.log2_mul_pow2 by lia. apply Z.log2_le_mono. lia. }
  destruct (scaled n d _) as [a b]. unfold emin. case_match; lia.
Qed.

Lemma RN_nonneg x : (0 <= x)%Q -> (0 <= RN x)%Q.
Proof.
  intros Hx. unfold RN. destruct (Qnum x =? 0) eqn:Hz; [apply Qle_refl|].
  apply Z.eqb_neq in Hz.
  assert (0 < Qnum x) as Hpos by (unfold Qle in Hx; simpl in Hx; lia).
  rewrite Z.abs_eq, (proj2 (Z.sgn_pos_iff _)) by lia.
  destruct (scaled _ _ _) as [a b] eqn:Hs.
  apply scaled_pos in Hs as [Ha Hb]; [|lia..].
  apply dyadic_nonneg. rewrite Z.mul_1_l. apply round_half_even_nonneg; lia.
Qed.

(** Rounding does not cross an integer [c] with [0 < c <= 2^52]. *)
Lemma RN_le_int x c :
  0 < c <= 2 ^ 52 -> (0 <= x)%Q -> (x <= inject_Z c)%Q -> (RN x <= inject_Z c)%Q.
Proof.
  intros Hc Hx Hle. unfold RN. destruct (Qnum x =? 0) eqn:Hz.
  { unfold Qle; simpl. lia. }
  apply Z.eqb_neq in Hz.
  assert (0 < Qnum x) as Hpos by (unfold Qle in Hx; simpl in Hx; lia).
  assert (Qnum x <= c * Z.pos (Qden x)) as Hnd by (unfold Qle in Hle; simpl in Hle; lia).
  rewrite Z.abs_eq, (proj2 (Z.sgn_pos_iff _)) by lia.
  pose proof (exponent_nonpos (Qnum x) (Z.pos (Qden x)) Hpos ltac:(lia) ltac:(nia)) as He.
  set (e := exponent _ _) in *. clearbody e.
  unfold scaled, dyadic. destruct (0 <=? e) eqn:He0; rewrite Z.mul_1_l.
  - apply Z.leb_le in He0. assert (e = 0) as -> by lia.
    change (2 ^ 0) with 1. rewrite !Z.mul_1_r.
    unfold Qle; simpl. rewrite !Z.mul_1_r.
    apply round_half_even_le; lia.
  - apply Z.leb_gt in He0.
    pose proof (Z.pow_pos_nonneg 2 (- e) ltac:(lia) ltac:(lia)) as Hp.
    unfold Qle; simpl. rewrite Z2Pos.id by lia. rewrite Z.mul_1_r.
    apply round_half_even_le; [lia|]. nia.
Qed.

Lemma of_int_100 : (of_int 100 == 100)%Q.
Proof. vm_compute. reflexivity. Qed.

(** [score / total * 100] stays within 0 and 100. *)
Lemma percent_bounds (s t : Z) :
  0 <= s <= t -> 0 < t ->
  let p := mul (int_truediv s t) (of_int 100) in (0 <= p <= 100)%Q.
Proof.
  intros Hs Ht.
  assert (0 <= inject_Z s / inject_Z t <= 1)%Q as [Hq0 Hq1].
  { assert (0 < inject_Z t)%Q as Htq by (unfold Qlt; simpl; lia).
    split.
    - apply Qle_shift_div_l; [done|]. unfold Qle; simpl. lia.
    - apply Qle_shift_div_r; [done|]. unfold Qle; simpl. lia. }
  assert (0 <= int_truediv s t <= 1)%Q as [Hd0 Hd1].
  { unfold int_truediv. split; [by apply RN_nonneg|].
    apply (RN_le_int _ 1); [lia|done|done]. }
  simpl. unfold mul. split.
  - apply RN_nonneg. rewrite of_int_100. apply Qmult_le_0_compat; [done|].
    unfold Qle; simpl; lia.
  - apply (RN_le_int _ 100); [lia| |].
    + rewrite of_int_100. apply Qmult_le_0_compat; [done|]. unfold Qle; simpl; lia.
    + rewrite of_int_100. apply Qle_trans with (1 * 100)%Q.
      * apply Qmult_le_compat_r; [done|]. unfold Qle; simpl; lia.
      * unfold Qle; simpl; lia.
Qed.

(** [round(p, 2)] of a percentage is a percentage. *)
Lemma round_bounds p :
  (0 <= p <= 100)%Q -> (0 <= round p 2 <= 100)%Q.
Proof.
  intros [Hp0 Hp1]. unfold round.
  change (10 ^ Z.of_nat 2) with 100. change (Z.to_pos 100) with 100%positive.
  set (y := (p * inject_Z 100)%Q).
  assert (0 <= y <= inject_Z 10000)%Q as [Hy0 Hy1].
  { subst y. split.
    - apply Qmult_le_0_compat; [done|]. unfold Qle; simpl; lia.
    - apply Qle_trans with (100 * inject_Z 100)%Q.
      + apply Qmult_le_compat_r; [done|]. unfold Qle; simpl; lia.
      + unfold Qle; simpl; lia. }
  clearbody y.
  assert (0 <= Qnum y) as Hn0 by (unfold Qle in Hy0; simpl in Hy0; lia).
  assert (Qnum y <= 10000 * Z.pos (Qden y)) as Hn1
    by (unfold Qle in Hy1; simpl in Hy1; lia).
  pose proof (round_half_even_nonneg (Qnum y) (Z.pos (Qden y)) Hn0 ltac:(lia)).
  pose proof (round_half_even_le (Qnum y) (Z.pos (Qden y)) 10000 ltac:(lia) Hn1).
  set (k := round_half_even _ _) in *. split.
  - apply RN_nonneg. unfold Qle; simpl; lia.
  - apply (RN_le_int _ 100); [lia| |]; unfold Qle; simpl; lia.
Qed.


Lemma round_half_even_ge num den k :
  0 < den -> k * den <= num -> k <= round_half_even num den.
Proof.
  intros Hd Hle. unfold round_half_even.
  pose proof (Z.div_mod num den ltac:(lia)) as Hdm.
  pose proof (Z.mod_pos_bound num den Hd) as Hr.
  assert (k <= num / den) by nia.
  repeat case_match; lia.
Qed.

(** Above the subnormal range the scaled quotient keeps 53 bits:
    it is at least [2^52]. *)
Lemma exponent_normal n d a b :
  0 < n -> 0 < d -> emin <= Z.log2 n - Z.log2 d - 53 ->
  scaled n d (exponent n d) = (a, b) -> 2 ^ 52 * b <= a.
Proof.
  intros Hn Hd Hmin. unfold exponent.
  set (e0 := Z.log2 n - Z.log2 d - 53) in *.
  pose proof (Z.log2_spec n Hn) as [Hn1 _].
  pose proof (Z.log2_spec d Hd) as [_ Hd2].
  pose proof (Z.log2_nonneg n) as Hln. pose proof (Z.log2_nonneg d) as Hld.
  assert (2 ^ 52 * snd (scaled n d e0) <= fst (scaled n d e0)) as H0.
  { unfold scaled. destruct (0 <=? e0) eqn:He; simpl.
    - apply Z.leb_le in He.
      assert (2 ^ Z.log2 n = 2 ^ 52 * 2 ^ e0 * 2 ^ Z.succ (Z.log2 d)) as Hpow.
      { rewrite <-!Z.pow_add_r by lia. f_equal. lia. }
      pose proof (Z.pow_pos_nonneg 2 e0 ltac:(lia) He). nia.
    - apply Z.leb_gt in He.
      assert (2 ^ Z.log2 n * 2 ^ (- e0) = 2 ^ 52 * 2 ^ Z.succ (Z.log2 d)) as Hpow.
      { rewrite <-!Z.pow_add_r by lia. f_equal. lia. }
      pose proof (Z.pow_pos_nonneg 2 (- e0) ltac:(lia) ltac:(lia)). nia. }
  destruct (scaled n d e0) as [a0 b0] eqn:Hs0. simpl in H0.
  destruct (a0 <? b0 * 2 ^ 53) eqn:Hlt.
  - rewrite Z.max_l by lia. rewrite Hs0. intros [= <- <-]. done.
  - apply Z.ltb_ge in Hlt. rewrite Z.max_l by lia.
    revert Hs0. unfold scaled.
    destruct (0 <=? e0) eqn:He; intros [= <- <-].
    + apply Z.leb_le in He. rewrite (proj2 (Z.leb_le 0 (e0 + 1))) by lia.
      intros [= <- <-]. rewrite Z.pow_add_r by lia. change (2 ^ 53) with (2 * 2 ^ 52) in Hlt.
      change (2 ^ 1) with 2. nia.
    + apply Z.leb_gt in He. destruct (0 <=? e0 + 1) eqn:He1.
      * apply Z.leb_le in He1. assert (e0 = -1) as Heq by lia.
        intros [= <- <-]. rewrite Heq in *. simpl in *. lia.
      * apply Z.leb_gt in He1. intros [= <- <-].
        replace (- e0) with (- (e0 + 1) + 1) in Hlt by lia.
        rewrite Z.pow_add_r in Hlt by lia.
        change (2 ^ 53) with (2 * 2 ^ 52) in Hlt. change (2 ^ 1) with 2 in Hlt. nia.
Qed.

(** The float of a positive integer is positive. *)
Lemma of_int_pos z : 0 < z -> (0 < of_int z)%Q.
Proof.
  intros Hz. unfold of_int, RN. simpl Qnum. simpl Qden.
  rewrite (proj2 (Z.eqb_neq z 0)) by lia.
  rewrite (Z.abs_eq z) by lia. rewrite (proj2 (Z.sgn_pos_iff z)) by lia.
  destruct (scaled z 1 (exponent z 1)) as [a b] eqn:Hs.
  pose proof (scaled_pos z 1 _ a b Hz ltac:(lia) Hs) as [Ha Hb].
  apply exponent_normal in Hs; [|lia|lia|].
  2:{ change (Z.log2 1) with 0. pose proof (Z.log2_nonneg z). unfold emin. lia. }
  pose proof (round_half_even_ge a b (2 ^ 52) Hb Hs) as Hm.
  rewrite Z.mul_1_l. set (m := round_half_even a b) in *.
  assert (0 < m) by lia. unfold dyadic. destruct (0 <=? exponent z 1) eqn:He.
  - apply Z.leb_le in He. pose proof (Z.pow_pos_nonneg 2 _ ltac:(lia) He).
    unfold Qlt; simpl. nia.
  - unfold Qlt; simpl. lia.
Qed.

Lemma eqb_zero_pos x : (0 < x)%Q -> eqb x 0 = false.
Proof.
  intros Hx. unfold eqb. destruct (Qeq_bool x 0) eqn:Heq; [|done].
  apply Qeq_bool_iff in Heq. rewrite Heq in Hx. by apply Qlt_irrefl in Hx.
Qed.

End FloatBounds.

(* ===================================================================== *)
(** ** Facts about the builtins *)
(* ===================================================================== *)

Section Builtins.

Lemma bind_ret {A B : Type} (x : A) (k : A -> py B) : (mret x ≫= k) = k x.
Proof. reflexivity. Qed.

Lemma ltb_false_le a b : Float.ltb a b = false -> (b <= a)%Q.
Proof.
  unfold Float.ltb. intros H. apply negb_false_iff in H. by apply Qle_bool_iff.
Qed.

Lemma ltb_true_lt a b : Float.ltb a b = true -> (a < b)%Q.
Proof.
  unfold Float.ltb. intros H. apply negb_true_iff in H.
  apply Qnot_le_lt. intros Hle. apply Qle_bool_iff in Hle. congruence.
Qed.

Lemma ltb_proper a b b' : (b == b')%Q -> Float.ltb a b = Float.ltb a b'.
Proof.
  intros Heq. unfold Float.ltb. f_equal.
  destruct (Qle_bool b a) eqn:H1, (Qle_bool b' a) eqn:H2; try done.
  - apply Qle_bool_iff in H1. rewrite Heq in H1. apply Qle_bool_iff in H1. congruence.
  - apply Qle_bool_iff in H2. rewrite <-Heq in H2. apply Qle_bool_iff in H2. congruence.
Qed.

(** [max_from m l] is an element of [m :: l] and bounds all of them. *)
Lemma max_from_spec l : forall m,
  (max_from m l = m ∨ max_from m l ∈ l)
  ∧ (m <= max_from m l)%Q
  ∧ (∀ s, s ∈ l → (s <= max_from m l)%Q).
Proof.
  induction l as [|x l IH]; intros m; simpl.
  - split; [by left|]. split; [apply Qle_refl|]. intros s Hs. by apply elem_of_nil in Hs.
  - destruct (IH (if Float.ltb m x then x else m)) as (Hin & Hle & Hall).
    destruct (Float.ltb m x) eqn:Hmx.
    + apply ltb_true_lt in Hmx. split; [|split].
      * right. destruct Hin as [->|Hin]; [left|by right].
      * eapply Qle_trans; [apply Qlt_le_weak, Hmx|done].
      * intros s [->|Hs]%elem_of_cons; [done|by apply Hall].
    + apply ltb_false_le in Hmx. split; [|split].
      * destruct Hin as [->|Hin]; [by left|right; by right].
      * done.
      * intros s [->|Hs]%elem_of_cons; [by eapply Qle_trans|by apply Hall].
Qed.

Lemma max_spec l m :
  max l = mret m -> m ∈ l ∧ ∀ s, s ∈ l → (s <= m)%Q.
Proof.
  destruct l as [|x l]; simpl; [done|]. intros [= <-].
  destruct (max_from_spec l x) as (Hin & Hle & Hall). split.
  - destruct Hin as [->|Hin]; [left|by right].
  - intros s [->|Hs]%elem_of_cons; [done|by apply Hall].
Qed.

Lemma max_nonempty l : l <> [] -> ∃ m, max l = mret m.
Proof. destruct l; [done|]. intros _. by eexists. Qed.

(** [index_from v l i] finds the first position of [l] whose value equals
    [v], counted from [i]. *)
Lemma index_from_spec v l : forall i,
  (∃ s, s ∈ l ∧ (s == v)%Q) ->
  ∃ j s, index_from v l i = mret (i + j)%nat
         ∧ l !! j = Some s ∧ (s == v)%Q
         ∧ ∀ k s', (k < j)%nat → l !! k = Some s' → ¬ (s' == v)%Q.
Proof.
  induction l as [|x l IH]; intros i (s & Hs & Heq).
  - by apply elem_of_nil in Hs.
  - simpl. unfold Float.eqb. destruct (Qeq_bool x v) eqn:Hx.
    + exists 0%nat, x. rewrite Nat.add_0_r. split; [done|]. split; [done|].
      split; [by apply Qeq_bool_iff|]. intros k s' Hk. lia.
    + assert (¬ (x == v)%Q) as Hne.
      { intros Hxv. apply Qeq_bool_iff in Hxv. congruence. }
      apply elem_of_cons in Hs as [->|Hs]; [done|].
      destruct (IH (S i) (ex_intro _ s (conj Hs Heq))) as (j & s1 & Hidx & Hj & Hs1 & Hfirst).
      exists (S j), s1. split; [by rewrite Hidx, Nat.add_succ_r|].
      split; [done|]. split; [done|].
      intros [|k] s' Hk Hlook; simpl in Hlook.
      * by injection Hlook as ->.
      * apply (Hfirst k); [lia|done].
Qed.

Lemma chr_in_range n : (n < 1114112)%N -> ∃ letter, chr n = mret letter.
Proof.
  intros Hn. unfold chr.
  destruct (n <? 128)%N; [by eexists|].
  destruct (n <? 2048)%N; [by eexists|].
  destruct (n <? 65536)%N; [by eexists|].
  destruct (n <? 1114112)%N eqn:Hlt; [by eexists|].
  apply N.ltb_ge in Hlt. lia.
Qed.
End Builtins.

(* ===================================================================== *)
(** ** The stable sort *)
(* ===================================================================== *)

Section SortFacts.
Context {A K : Type} (key : A -> K) (leb : K -> K -> bool).

Lemma insert_by_perm x l : insert_by key leb x l ≡ₚ x :: l.
Proof.
  induction l as [|y l IH]; simpl; [done|].
  case_match; [done|]. by rewrite IH, Permutation_swap.
Qed.

Lemma sort_by_perm l : sort_by key leb l ≡ₚ l.
Proof.
  induction l as [|x l IH]; simpl; [done|].
  by rewrite insert_by_perm, IH.
Qed.

Lemma sort_by_nil_inv l : sort_by key leb l = [] -> l = [].
Proof. intros H. apply Permutation_nil_r. by rewrite <-H, sort_by_perm. Qed.

Lemma Sorted_weaken (R1 R2 : relation A) l :
  (forall a b, R1 a b -> R2 a b) -> Sorted R1 l -> Sorted R2 l.
Proof.
  intros HR. induction 1 as [|a l _ IH Hhd]; constructor; [done|].
  destruct Hhd; constructor; auto.
Qed.

Lemma StronglySorted_weaken (R1 R2 : relation A) l :
  (forall a b, R1 a b -> R2 a b) -> StronglySorted R1 l -> StronglySorted R2 l.
Proof.
  intros HR. induction 1 as [|a l _ IH Hall]; constructor; [done|].
  eapply Forall_impl; [exact Hall|]. auto.
Qed.

Hypothesis leb_total : forall a b, leb a b = false -> leb b a = true.

Lemma insert_by_sorted x l :
  Sorted (fun a b => leb (key a) (key b) = true) l ->
  Sorted (fun a b => leb (key a) (key b) = true) (insert_by key leb x l).
Proof.
  induction 1 as [|y l Hs IH Hhd]; simpl; [by repeat constructor|].
  destruct (leb (key x) (key y)) eqn:Hxy.
  - constructor; [by constructor|by constructor].
  - constructor; [done|].
    destruct l as [|z l]; simpl in *.
    + constructor. by apply leb_total.
    + case_match; constructor; [by apply leb_total|by inversion Hhd].
Qed.

Lemma sort_by_sorted l :
  Sorted (fun a b => leb (key a) (key b) = true) (sort_by key leb l).
Proof. induction l; simpl; [constructor|by apply insert_by_sorted]. Qed.
End SortFacts.

Section Grouper.
Context `{cv : OpenCV}.
Implicit Types (bubbles row : list Bubble) (rs : list (list Bubble)).

Lemma tuple_leb_total p q : tuple_leb p q = false -> tuple_leb q p = true.
Proof. unfold tuple_leb. destruct p, q; simpl. lia. Qed.

Lemma Z_leb_total a b : (a <=? b) = false -> (b <=? a) = true.
Proof. lia. Qed.

(** A list sorted by the key [(y, x)] is sorted by [y]. *)
Lemma sort_by_position_above bubbles :
  StronglySorted above (sort_by (fun b => (b_y b, b_x b)) tuple_leb bubbles).
Proof.
  pose proof (sort_by_sorted (fun b : Bubble => (b_y b, b_x b)) tuple_leb
                tuple_leb_total bubbles) as Hs.
  apply Sorted_StronglySorted in Hs.
  - eapply StronglySorted_weaken; [|exact Hs].
    intros a b. unfold above, tuple_leb; simpl. lia.
  - intros a b c. unfold tuple_leb; simpl. lia.
Qed.

Lemma sort_by_x_sorted row : Sorted left_of (sort_by b_x Z.leb row).
Proof.
  eapply Sorted_weaken; [|apply (sort_by_sorted b_x Z.leb Z_leb_total)].
  intros a b. unfold left_of. simpl. lia.
Qed.

(** The loop of [_group_bubbles_by_rows], started in any state with an
    open row, emits the rows closed so far and then the rows of the sweep. *)
Lemma group_body_open st b : current_row st <> [] -> current_row (group_body st b) <> [].
Proof.
  intros Hrow. unfold group_body. case_match; simpl; [|done].
  by destruct (current_row st).
Qed.

Lemma group_loop rest : forall st,
  current_row st <> [] ->
  close_row (rows (fold_left group_body rest st))
            (current_row (fold_left group_body rest st))
  = rows st ++ sweep_rows (current_y st) (current_row st) rest.
Proof.
  induction rest as [|b rest IH]; intros st Hrow.
  - simpl. destruct (current_row st); [done|reflexivity].
  - cbn [fold_left sweep_rows]. rewrite IH by by apply group_body_open.
    unfold group_body. destruct (Z.abs (b_y b - current_y st) <? 30); simpl; [done|].
    destruct (current_row st); [done|]. simpl. by rewrite <-app_assoc.
Qed.

Lemma group_is_sweep bubbles : _group_bubbles_by_rows bubbles = row_sweep bubbles.
Proof.
  destruct bubbles as [|first rest]; [done|].
  unfold _group_bubbles_by_rows, row_sweep. by rewrite group_loop.
Qed.

Lemma sweep_rows_concat rest : forall reference row,
  concat (sweep_rows reference row rest) ≡ₚ row ++ rest.
Proof.
  induction rest as [|b rest IH]; intros reference row; simpl.
  - by rewrite !app_nil_r, sort_by_perm.
  - case_match.
    + by rewrite IH, <-app_assoc.
    + simpl. by rewrite IH, sort_by_perm.
Qed.

Lemma sweep_rows_nonempty rest : forall reference row,
  row <> [] -> Forall (fun r => r <> []) (sweep_rows reference row rest).
Proof.
  induction rest as [|b rest IH]; intros reference row Hrow; simpl.
  - constructor; [|constructor]. intros Hnil. by apply sort_by_nil_inv in Hnil.
  - case_match.
    + apply IH. by destruct row.
    + constructor; [|by apply IH]. intros Hnil. by apply sort_by_nil_inv in Hnil.
Qed.

Lemma sweep_rows_sorted rest : forall reference row,
  Forall (Sorted left_of) (sweep_rows reference row rest).
Proof.
  induction rest as [|b rest IH]; intros reference row; simpl.
  - repeat constructor. apply sort_by_x_sorted.
  - case_match; [apply IH|]. constructor; [apply sort_by_x_sorted|apply IH].
Qed.

Lemma group_rows_nonempty bubbles :
  Forall (fun r => r <> []) (_group_bubbles_by_rows bubbles).
Proof.
  rewrite group_is_sweep. destruct bubbles; simpl; [constructor|].
  by apply sweep_rows_nonempty.
Qed.

Lemma group_rows_sorted bubbles :
  Forall (Sorted left_of) (_group_bubbles_by_rows bubbles).
Proof.
  rewrite group_is_sweep. destruct bubbles; simpl; [constructor|].
  apply sweep_rows_sorted.
Qed.

Lemma group_rows_concat bubbles : concat (_group_bubbles_by_rows bubbles) ≡ₚ bubbles.
Proof.
  rewrite group_is_sweep. destruct bubbles; simpl; [done|].
  by rewrite sweep_rows_concat.
Qed.

Lemma detect_sorted self image bubbles :
  _detect_bubbles self image = mret bubbles -> StronglySorted above bubbles.
Proof.
  unfold _detect_bubbles.
  destruct (for_each _ _ _) as [e|found]; simpl; [done|].
  intros [= <-]. apply sort_by_position_above.
Qed.

End Grouper.

(* ===================================================================== *)
(** ** Properties of the evaluator *)
(* ===================================================================== *)

Section Evaluator.
Context `{cv : OpenCV}.
Implicit Types marked key : gmap string string.

Lemma evaluate_body_status marked q c n details :
  evaluate_body marked q c (n, details)
  = ((if bool_decide (status marked q c = "correct") then S n else n),
     <[q := status marked q c]> details).
Proof.
  unfold evaluate_body, status.
  repeat case_bool_decide; simplify_eq; done.
Qed.

(** The invariant of the scoring loop, for the part [key] of the answer key
    already visited. *)
Lemma evaluate_loop marked key :
  let st := map_fold (evaluate_body marked) (0%nat, ∅) key in
  (∀ q, st.2 !! q = status marked q <$> key !! q)
  ∧ st.1 = size (filter is_correct st.2).
Proof.
  apply (map_fold_weak_ind
           (fun st key => (∀ q, st.2 !! q = status marked q <$> key !! q)
                          ∧ st.1 = size (filter is_correct st.2))).
  - simpl. split; [intros q; by rewrite !lookup_empty | by rewrite map_filter_empty].
  - intros q c m [n details] Hfresh [Hlook Hcount].
    rewrite evaluate_body_status. cbn [fst snd] in *. split.
    + intros q'. destruct (decide (q = q')) as [->|Hne].
      * by rewrite !lookup_insert_eq.
      * by rewrite !lookup_insert_ne.
    + assert (details !! q = None) as Hnone by (by rewrite Hlook, Hfresh).
      case_bool_decide as Hc.
      * rewrite map_filter_insert_True by done.
        rewrite map_size_insert_None; [by rewrite Hcount|].
        apply map_lookup_filter_None; by left.
      * rewrite map_filter_insert_not'; [done|done|].
        intros y Hy. congruence.
Qed.

Lemma complete_loop marked key q :
  map_fold (complete_body marked) ∅ key !! q
  = (fun _ => default "" (marked !! q)) <$> key !! q.
Proof.
  revert q.
  apply (map_fold_weak_ind
           (fun (complete key : gmap string string) =>
              ∀ q, complete !! q = (fun _ => default "" (marked !! q)) <$> key !! q)).
  - intros q. by rewrite !lookup_empty.
  - intros q' c m complete _ IH q. unfold complete_body. destruct (decide (q' = q)) as [->|Hne].
    + by rewrite !lookup_insert_eq.
    + by rewrite !lookup_insert_ne.
Qed.

Lemma evaluate_result self marked key q :
  result (_evaluate_answers self marked key) !! q = status marked q <$> key !! q.
Proof.
  unfold _evaluate_answers.
  pose proof (evaluate_loop marked key) as [Hlook _].
  destruct (map_fold _ _ key) as [n details]; simpl in *. apply Hlook.
Qed.

Lemma evaluate_score self marked key :
  score (_evaluate_answers self marked key)
  = size (filter is_correct (result (_evaluate_answers self marked key))).
Proof.
  unfold _evaluate_answers.
  pose proof (evaluate_loop marked key) as [_ Hcount].
  destruct (map_fold _ _ key) as [n details]; simpl in *. apply Hcount.
Qed.

Lemma evaluate_total self marked key :
  total (_evaluate_answers self marked key) = size key.
Proof. unfold _evaluate_answers. by destruct (map_fold _ _ key). Qed.

Lemma evaluate_percentage self marked key :
  percentage (_evaluate_answers self marked key)
  = Float.round
      (if (0 <? size key)%nat
       then Float.mul
              (Float.int_truediv
                 (Z.of_nat (score (_evaluate_answers self marked key)))
                 (Z.of_nat (size key)))
              (Float.of_int 100)
       else 0%Q) 2.
Proof. unfold _evaluate_answers. by destruct (map_fold _ _ key). Qed.

Lemma evaluate_marked self marked key q :
  marked_answers (_evaluate_answers self marked key) !! q
  = (fun _ => default "" (marked !! q)) <$> key !! q.
Proof.
  unfold _evaluate_answers. destruct (map_fold (evaluate_body _) _ key); simpl.
  apply complete_loop.
Qed.

Lemma evaluate_result_dom self marked key :
  dom (result (_evaluate_answers self marked key)) = dom key.
Proof.
  apply set_eq. intros q.
  by rewrite !elem_of_dom, evaluate_result, fmap_is_Some.
Qed.

Lemma evaluate_marked_dom self marked key :
  dom (marked_answers (_evaluate_answers self marked key)) = dom key.
Proof.
  apply set_eq. intros q.
  by rewrite !elem_of_dom, evaluate_marked, fmap_is_Some.
Qed.

Lemma evaluate_score_le_total self marked key :
  (score (_evaluate_answers self marked key) ≤ total (_evaluate_answers self marked key))%nat.
Proof.
  rewrite evaluate_score, evaluate_total.
  etrans; [apply map_size_filter|].
  apply Nat.eq_le_incl.
  rewrite <-(size_dom (D:=gset string) key), <-evaluate_result_dom with (self:=self) (marked:=marked).
  by rewrite size_dom.
Qed.

(** The score read off the inputs: the questions of the key whose mark is
    the key's letter, the empty letter apart. *)
Lemma evaluate_score_marks self marked key :
  score (_evaluate_answers self marked key)
  = size (filter (fun entry : string * string =>
                    marked !! entry.1 = Some entry.2 ∧ entry.2 ≠ "") key).
Proof.
  rewrite evaluate_score.
  rewrite <-(size_dom (D:=gset string) (filter is_correct _)).
  rewrite <-(size_dom (D:=gset string) (filter _ key)).
  f_equal. apply set_eq. intros q. rewrite !elem_of_dom. split.
  - intros [s [Hs Hc]%map_lookup_filter_Some]. rewrite evaluate_result in Hs.
    destruct (key !! q) as [c|] eqn:Hk; simpl in Hs; [|done]. injection Hs as <-.
    exists c. apply map_lookup_filter_Some. split; [done|].
    unfold is_correct, status in Hc. simpl in *.
    destruct (marked !! q) as [a|]; simpl in Hc; repeat case_bool_decide; by simplify_eq.
  - intros [c [Hk [Hm Hne]]%map_lookup_filter_Some]. simpl in *.
    exists "correct". apply map_lookup_filter_Some. split; [|done].
    rewrite evaluate_result, Hk. simpl. unfold status. rewrite Hm. simpl.
    by rewrite bool_decide_false, bool_decide_true by done.
Qed.

End Evaluator.

(* ===================================================================== *)
(** ** Properties of the answer extractor *)
(* ===================================================================== *)

Section Extractor.
Context `{cv : OpenCV}.
Variable self : OMRProcessor.
Variable image : list (list Z).
Implicit Types (row : list Bubble) (marked : gmap string string).


Lemma analyze_body_degenerate marked question_num row :
  length row <> questions_per_row self ->
  analyze_body self image marked (question_num, row) = mret marked.
Proof.
  intros Hlen. unfold analyze_body.
  by rewrite (proj2 (Nat.eqb_neq _ _) Hlen).
Qed.

(** The body of the loop never raises on a non-empty row, and writes the
    mark of that row. *)
Lemma analyze_body_spec marked question_num row :
  letters_in_range self -> row <> [] ->
  ∃ o, analyze_body self image marked (question_num, row)
       = mret (write_mark question_num o marked)
       ∧ row_mark self image row o.
Proof.
  intros Hletters Hrow. unfold row_mark.
  destruct (decide (length row = questions_per_row self)) as [Hlen|Hlen].
  2:{ exists None. by rewrite analyze_body_degenerate. }
  unfold analyze_body. rewrite (proj2 (Nat.eqb_eq _ _) Hlen). simpl.
  set (scores := fill_percentage image <$> row).
  destruct (max_nonempty scores) as [max_fill Hmax].
  { subst scores. by destruct row. }
  rewrite Hmax. simpl.
  apply max_spec in Hmax as [Hin Hall].
  destruct (index_from_spec max_fill scores 0%nat) as (j & s & Hidx & Hj & Hs & Hfirst).
  { exists max_fill. split; [done|reflexivity]. }
  assert (leftmost_maximum scores j s) as Hleft.
  { split; [done|]. split.
    - intros k s' Hk. rewrite Hs. apply Hall. by eapply list_elem_of_lookup_2.
    - intros k s' Hk Hlook.
      assert (s' <= max_fill)%Q as Hle
        by (apply Hall; by eapply list_elem_of_lookup_2).
      apply Qle_lteq in Hle as [Hlt|Heq].
      + rewrite Hs. exact Hlt.
      + by destruct (Hfirst k s' Hk Hlook). }
  pose proof (ltb_proper (bubble_threshold self) s max_fill Hs) as Hsame.
  destruct (Float.ltb (bubble_threshold self) max_fill) eqn:Hthr.
  - unfold index. rewrite Hidx. simpl.
    destruct (chr_in_range (ord_A + N.of_nat j)) as [letter Hletter].
    { apply lookup_lt_Some in Hj. subst scores. rewrite length_fmap in Hj.
      unfold letters_in_range in Hletters. lia. }
    rewrite Hletter. simpl. exists (Some letter). split; [done|].
    exists j, s. split; [done|]. rewrite Hsame. by exists letter.
  - exists None. split; [done|]. exists j, s. split; [done|]. by rewrite Hsame.
Qed.

(** The loop over the enumerated rows: it returns, the mark of row [i] is
    under question number [start + i], and no other entry changes. *)
Lemma analyze_loop rows : forall start marked0,
  letters_in_range self ->
  Forall (fun r => r <> []) rows ->
  ∃ marked,
    for_each (analyze_body self image) (enumerate rows start) marked0 = mret marked
    ∧ (∀ i row, rows !! i = Some row →
         ∃ o, row_mark self image row o
              ∧ marked !! pretty (start + i)%nat
                = match o with
                  | Some letter => Some letter
                  | None => marked0 !! pretty (start + i)%nat
                  end)
    ∧ (∀ q, (∀ i, (i < length rows)%nat → q ≠ pretty (start + i)%nat) →
            marked !! q = marked0 !! q).
Proof.
  induction rows as [|row rows IH]; intros start marked0 Hletters Hne.
  - exists marked0. split; [done|]. split; [|done]. intros i row Hi. done.
  - apply Forall_cons in Hne as [Hrow Hne]. cbn [enumerate for_each].
    destruct (analyze_body_spec marked0 start row Hletters Hrow) as (o & -> & Ho).
    rewrite bind_ret.
    destruct (IH (S start) (write_mark start o marked0) Hletters Hne)
      as (marked & -> & Hrows & Hother).
    exists marked. split; [done|]. split.
    + intros [|i] row' Hi; simpl in Hi.
      * injection Hi as <-. exists o. split; [done|].
        rewrite Nat.add_0_r, Hother.
        -- destruct o; simpl; [by rewrite lookup_insert_eq|done].
        -- intros i _ Heq. apply (inj pretty) in Heq. lia.
      * destruct (Hrows i row' Hi) as (o' & Ho' & Hlook). exists o'. split; [done|].
        rewrite Nat.add_succ_r. simpl in Hlook. rewrite Hlook.
        destruct o'; [done|]. destruct o; simpl; [|done].
        rewrite lookup_insert_ne; [done|].
        intros Heq. apply (inj pretty) in Heq. lia.
    + intros q Hq. rewrite Hother.
      * destruct o; simpl; [|done]. rewrite lookup_insert_ne; [done|].
        intros <-. apply (Hq 0%nat); [simpl; lia|by rewrite Nat.add_0_r].
      * intros i Hi. replace (S start + i)%nat with (start + S i)%nat by lia.
        apply Hq. simpl. lia.
Qed.

(** [_analyze_bubbles] returns the marks of the grouped rows. *)
Lemma analyze_marks bubbles :
  letters_in_range self ->
  ∃ marked,
    _analyze_bubbles self image bubbles = mret marked
    ∧ ∀ i row, _group_bubbles_by_rows bubbles !! i = Some row →
        row_mark self image row (marked !! pretty (S i)).
Proof.
  intros Hletters. unfold _analyze_bubbles.
  destruct (analyze_loop (_group_bubbles_by_rows bubbles) 1%nat ∅ Hletters
              (group_rows_nonempty bubbles)) as (marked & Hrun & Hrows & _).
  exists marked. split; [done|]. intros i row Hi.
  destruct (Hrows i row Hi) as (o & Ho & Hlook). simpl in Hlook.
  rewrite Hlook. by destruct o.
Qed.

End Extractor.

(* ===================================================================== *)
(** ** Properties of the bubble detector and of the whole call *)
(* ===================================================================== *)

Section Detector.
Context `{cv : OpenCV}.
Variable self : OMRProcessor.

Lemma leb_le a b : Float.leb a b = true ↔ (a <= b)%Q.
Proof. apply Qle_bool_iff. Qed.

Lemma ltb_lt a b : Float.ltb a b = true ↔ (a < b)%Q.
Proof.
  split; [apply ltb_true_lt|]. intros Hlt. unfold Float.ltb.
  apply negb_true_iff. destruct (Qle_bool b a) eqn:Hle; [|done].
  apply Qle_bool_iff in Hle. by apply Qle_not_lt in Hle.
Qed.

Lemma keeps_spec c : keeps self c = true ↔ area_within self c ∧ roughly_circular c.
Proof.
  unfold keeps, area_within, roughly_circular.
  by rewrite !andb_true_iff, !ltb_lt, !leb_le.
Qed.

Lemma bubble_of_contour c : b_contour (bubble_of c) = c.
Proof. unfold bubble_of. by destruct (boundingRect c) as [[[x y] w] h]. Qed.

(** One turn of the loop over the contours. *)
Lemma detect_body_spec bubbles c :
  0 < box_height c ->
  detect_body self bubbles c
  = mret (if keeps self c then bubbles ++ [bubble_of c] else bubbles).
Proof.
  intros Hh.
  unfold detect_body, keeps, aspect_ratio, bubble_of, box_width, box_height in *.
  destruct (boundingRect c) as [[[x y] w] h].
  destruct (Float.ltb _ _ && Float.ltb _ _); simpl; [|done].
  unfold float_truediv. rewrite eqb_zero_pos by by apply of_int_pos.
  rewrite bind_ret. by destruct (Float.leb _ _ && Float.leb _ _).
Qed.

Lemma detect_loop contours : forall bubbles,
  (∀ c, c ∈ contours → 0 < box_height c) ->
  for_each (detect_body self) contours bubbles
  = mret (bubbles ++ (bubble_of <$> filter (fun c => keeps self c) contours)).
Proof.
  induction contours as [|c contours IH]; intros bubbles Hh.
  - simpl. by rewrite app_nil_r.
  - cbn [for_each]. rewrite detect_body_spec by (apply Hh; left).
    rewrite bind_ret, IH by (intros c' Hc'; apply Hh; by right).
    rewrite filter_cons. destruct (keeps self c); simpl; [|done].
    by rewrite <-app_assoc.
Qed.

(** The detector returns the kept contours, sorted by position. *)
Lemma detect_spec image :
  positive_heights image ->
  _detect_bubbles self image
  = mret (sort_by (fun b => (b_y b, b_x b)) tuple_leb
            (bubble_of <$> filter (fun c => keeps self c) (external_contours image))).
Proof.
  intros Hh. unfold _detect_bubbles.
  fold (external_contours image). rewrite detect_loop; [done|].
  by apply Forall_forall.
Qed.

(** With a decoded image, boxes of positive height and a letter for every
    option, no stage raises. *)
Lemma process_returns image_path image answer_key :
  imread image_path = Some image ->
  letters_in_range self ->
  positive_heights (_preprocess_image self image) ->
  ∃ marked bubbles,
    _detect_bubbles self (_preprocess_image self image) = mret bubbles
    ∧ _analyze_bubbles self (_preprocess_image self image) bubbles = mret marked
    ∧ process_omr_sheet self image_path answer_key
      = mret (_evaluate_answers self marked answer_key).
Proof.
  intros Hread Hletters Hh. unfold process_omr_sheet. rewrite Hread.
  rewrite (detect_spec _ Hh), bind_ret.
  destruct (analyze_marks self (_preprocess_image self image)
              (sort_by (fun b => (b_y b, b_x b)) tuple_leb
                 (bubble_of <$> filter (fun c => keeps self c)
                    (external_contours (_preprocess_image self image))))
              Hletters) as (marked & Hrun & _).
  exists marked. eexists. split; [done|]. split; [done|].
  by rewrite Hrun, bind_ret.
Qed.

End Detector.

(* ===================================================================== *)
(** ** The properties the specification states *)
(* ===================================================================== *)

Section Properties.
Context `{cv : OpenCV}.
Implicit Types (self : OMRProcessor) (marked key : gmap string string).

(** C1. Evaluator status and score rule: a question of the key is
    "not_attempted" exactly when the marks have no entry for it or the
    empty marker, "correct" exactly when the marked letter equals the
    key's letter, "incorrect" otherwise; and the score is the number of
    questions with status "correct". *)
Theorem evaluator_status_and_score self marked key :
  let r := _evaluate_answers self marked key in
  score r = size (filter is_correct (result r))
  ∧ ∀ q c, key !! q = Some c →
      (result r !! q = Some "not_attempted"
         ↔ marked !! q = None ∨ marked !! q = Some "")
      ∧ (result r !! q = Some "correct"
           ↔ ∃ a, marked !! q = Some a ∧ a ≠ "" ∧ a = c)
      ∧ (result r !! q = Some "incorrect"
           ↔ ∃ a, marked !! q = Some a ∧ a ≠ "" ∧ a ≠ c).
Proof.
  intros r. subst r. split; [apply evaluate_score|].
  intros q c Hq. rewrite !evaluate_result, Hq. simpl. unfold status.
  destruct (marked !! q) as [a|]; simpl; repeat case_bool_decide;
    repeat split; try done; try (intros (a' & ? & ? & ?); by simplify_eq);
    try (intros [?|?]; by simplify_eq); intros _; subst; eauto.
Qed.

(** C2. Percentage formula and bounds: the total is the number of
    questions of the key, the score is the number of them marked with the
    key's letter, and the score is at most the total; with a non-empty key
    the percentage is [round(score / total * 100, 2)] in float arithmetic
    and lies between 0 and 100; with an empty key the percentage is 0. *)
Theorem percentage_formula_and_bounds self marked key :
  let r := _evaluate_answers self marked key in
  total r = size key
  ∧ score r
    = size (filter (fun entry : string * string =>
                      marked !! entry.1 = Some entry.2 ∧ entry.2 ≠ "") key)
  ∧ (score r ≤ total r)%nat
  ∧ ((0 < size key)%nat →
       (0 < total r)%nat
       ∧ percentage r
         = Float.round
             (Float.mul (Float.int_truediv (Z.of_nat (score r)) (Z.of_nat (total r)))
                        (Float.of_int 100)) 2
       ∧ (0 <= percentage r)%Q ∧ (percentage r <= 100)%Q)
  ∧ (size key = 0%nat → total r = 0%nat ∧ percentage r = 0%Q).
Proof.
  intros r. subst r.
  pose proof (evaluate_score_le_total self marked key) as Hle.
  pose proof (evaluate_total self marked key) as Htot.
  split; [done|]. split; [apply evaluate_score_marks|]. split; [done|].
  rewrite evaluate_percentage. rewrite Htot in *. split.
  - intros Hpos. rewrite (proj2 (Nat.ltb_lt _ _) Hpos).
    split; [done|]. split; [done|].
    apply round_bounds, percent_bounds; lia.
  - intros ->. split; reflexivity.
Qed.

(** C3. Answer extractor selection and tie-break: a valid row is sorted
    left to right and its bubble at position [j] has the letter
    [chr(ord('A') + j)]; the row's mark is the letter of the left-most
    bubble holding the greatest fill ratio when that ratio exceeds the
    threshold, and the row has no entry otherwise. *)
Theorem extractor_selection self image bubbles i row :
  letters_in_range self →
  _group_bubbles_by_rows bubbles !! i = Some row →
  length row = questions_per_row self →
  ∃ marked j s,
    _analyze_bubbles self image bubbles = mret marked
    ∧ Sorted left_of row
    ∧ leftmost_maximum (fill_percentage image <$> row) j s
    ∧ ((bubble_threshold self < s)%Q →
         ∃ letter, chr (ord_A + N.of_nat j) = mret letter
                   ∧ marked !! pretty (S i) = Some letter)
    ∧ ((s <= bubble_threshold self)%Q → marked !! pretty (S i) = None).
Proof.
  intros Hletters Hrow Hlen.
  destruct (analyze_marks self image bubbles Hletters) as (marked & Hrun & Hmarks).
  specialize (Hmarks i row Hrow). unfold row_mark in Hmarks.
  rewrite decide_True in Hmarks by done.
  destruct Hmarks as (j & s & Hleft & Hmark).
  exists marked, j, s. split; [done|]. split.
  { eapply Forall_lookup_1; [apply group_rows_sorted|exact Hrow]. }
  split; [done|]. split.
  - intros Hlt. apply ltb_lt in Hlt. rewrite Hlt in Hmark.
    destruct Hmark as (letter & Hchr & Hlook). by exists letter.
  - intros Hle. destruct (Float.ltb (bubble_threshold self) s) eqn:Hlt; [|done].
    apply ltb_lt in Hlt. by apply Qlt_not_le in Hlt.
Qed.

(** C4, as the code has it. Bubble detector filter: with bounding boxes
    of positive height the detector returns, and a contour becomes a
    bubble exactly when its area lies strictly between [min_contour_area]
    and [max_contour_area] and its aspect ratio [w / float(h)] lies in
    [[0.7, 1.3]], limits included; every bubble comes from a contour. *)
Theorem detector_filter self image :
  positive_heights image →
  ∃ bubbles,
    _detect_bubbles self image = mret bubbles
    ∧ (∀ c, c ∈ external_contours image →
         (bubble_of c ∈ bubbles ↔ area_within self c ∧ roughly_circular c))
    ∧ (∀ b, b ∈ bubbles → ∃ c, c ∈ external_contours image ∧ b = bubble_of c).
Proof.
  intros Hh. eexists. split; [by apply detect_spec|].
  split.
  - intros c Hc. rewrite sort_by_perm, <-keeps_spec, list_elem_of_fmap.
    split.
    + intros (c' & Heq & Hc'). apply list_elem_of_filter in Hc' as [Hk _].
      apply (f_equal b_contour) in Heq. rewrite !bubble_of_contour in Heq.
      subst c'. by apply Is_true_true.
    + intros Hk. exists c. split; [done|].
      apply list_elem_of_filter. split; [by apply Is_true_true|done].
  - intros b. rewrite sort_by_perm, list_elem_of_fmap.
    intros (c & -> & Hc). apply list_elem_of_filter in Hc as [_ Hc]. by exists c.
Qed.

(** C5. Row grouper sweep: the bubbles reach the grouper sorted by
    vertical position (the last step of the detector), and the grouper
    is the single sweep of the specification: a bubble joins the open row
    exactly when its vertical coordinate is less than 30 away from the
    coordinate of the row's first member; any other bubble closes the row,
    sorted left to right, and opens the next one. *)
Theorem row_grouper_sweep :
  (∀ self image bubbles,
     _detect_bubbles self image = mret bubbles → StronglySorted above bubbles)
  ∧ (∀ bubbles, _group_bubbles_by_rows bubbles = row_sweep bubbles).
Proof. split; [apply detect_sorted|apply group_is_sweep]. Qed.

(** C6. Degenerate row absorption: a row whose bubble count differs from
    the options per question raises nothing and writes nothing; the
    analysis runs to its end, the row's question number has no entry in
    the marks, every row still gets its own mark, and the evaluator gives
    that question the status "not_attempted". *)
Theorem degenerate_row_absorbed self image bubbles i row :
  letters_in_range self →
  _group_bubbles_by_rows bubbles !! i = Some row →
  length row ≠ questions_per_row self →
  (∀ marked0, analyze_body self image marked0 (S i, row) = mret marked0)
  ∧ ∃ marked,
      _analyze_bubbles self image bubbles = mret marked
      ∧ marked !! pretty (S i) = None
      ∧ (∀ i' row', _group_bubbles_by_rows bubbles !! i' = Some row' →
           row_mark self image row' (marked !! pretty (S i')))
      ∧ (∀ key c, key !! pretty (S i) = Some c →
           result (_evaluate_answers self marked key) !! pretty (S i)
           = Some "not_attempted").
Proof.
  intros Hletters Hrow Hlen. split.
  { intros marked0. by apply analyze_body_degenerate. }
  destruct (analyze_marks self image bubbles Hletters) as (marked & Hrun & Hmarks).
  exists marked. split; [done|].
  assert (marked !! pretty (S i) = None) as Hnone.
  { specialize (Hmarks i row Hrow). unfold row_mark in Hmarks.
    by rewrite decide_False in Hmarks. }
  split; [done|]. split; [done|].
  intros key c Hkey. rewrite evaluate_result, Hkey. simpl.
  unfold status. by rewrite Hnone.
Qed.

(** C7. Image-load failure is fatal and atomic: when the image cannot be
    decoded the call raises the load error, whatever the stages would
    compute, and returns no result; when the image is decoded (and the
    boxes have positive height and every option has a letter) the call
    raises nothing and returns a result. *)
Theorem image_load_failure_only self image_path key :
  (imread image_path = None →
     process_omr_sheet self image_path key
     = raise (ValueError ("Could not load image from " +:+ image_path))
     ∧ ∀ r, process_omr_sheet self image_path key ≠ mret r)
  ∧ (∀ image,
       imread image_path = Some image →
       letters_in_range self →
       positive_heights (_preprocess_image self image) →
       ∃ r, process_omr_sheet self image_path key = mret r).
Proof.
  split.
  - intros Hread. unfold process_omr_sheet. rewrite Hread. by split.
  - intros image Hread Hletters Hh.
    destruct (process_returns self image_path image key Hread Hletters Hh)
      as (marked & found & _ & _ & Hrun).
    by eexists.
Qed.

(** C8. Result completeness and status vocabulary: the completed marks
    and the status map have exactly the questions of the key, the
    completed mark of a question is its mark or the empty string, and
    every status is "correct", "incorrect" or "not_attempted", never
    "invalid". *)
Theorem evaluator_result_complete self marked key :
  let r := _evaluate_answers self marked key in
  dom (marked_answers r) = dom key
  ∧ dom (result r) = dom key
  ∧ (∀ q, q ∈ dom key → marked_answers r !! q = Some (default "" (marked !! q)))
  ∧ (∀ q s, result r !! q = Some s →
       s ∈ ["correct"; "incorrect"; "not_attempted"] ∧ s ≠ "invalid").
Proof.
  intros r. subst r.
  split; [apply evaluate_marked_dom|]. split; [apply evaluate_result_dom|]. split.
  - intros q [c Hq]%elem_of_dom. by rewrite evaluate_marked, Hq.
  - intros q s. rewrite evaluate_result.
    destruct (key !! q) as [c|]; simpl; [|done]. intros [= <-].
    unfold status. repeat case_bool_decide; split; (done || set_solver).
Qed.

(** C9. Mock and real processors satisfy the same scoring contract: on
    every key, the stand-in processor returns the score, total,
    percentage, completed marks, echoed key and statuses that
    [_evaluate_answers] returns for the stand-in's fixed marks. *)
Theorem mock_scoring_agrees self image_path key :
  let mock := mock_omr_utils.process_omr_sheet image_path key in
  let real := _evaluate_answers self mock_omr_utils.mock_marked_answers key in
  score mock = score real
  ∧ total mock = total real
  ∧ percentage mock = percentage real
  ∧ marked_answers mock = marked_answers real
  ∧ correct_answers mock = correct_answers real
  ∧ result mock = result real.
Proof.
  intros mock real. subst mock real.
  unfold mock_omr_utils.process_omr_sheet, _evaluate_answers.
  change (mock_omr_utils.score_body) with evaluate_body.
  change (mock_omr_utils.fill_body) with complete_body.
  destruct (map_fold (evaluate_body _) _ key) as [correct_count result_details].
  simpl. done.
Qed.

(** C10. Row grouping is a partition: the rows together hold exactly the
    input bubbles, each once, and no row is empty. *)
Theorem row_grouping_partition bubbles :
  concat (_group_bubbles_by_rows bubbles) ≡ₚ bubbles
  ∧ Forall (fun row => row ≠ []) (_group_bubbles_by_rows bubbles).
Proof. split; [apply group_rows_concat|apply group_rows_nonempty]. Qed.

End Properties.

(* ===================================================================== *)
(** ** The processor on the synthetic sheet *)
(* ===================================================================== *)

(** Known binary64 values: 1/3 and 0.65 with their exact numerators over a
    power of two, the percentage of one correct answer out of three, and a
    tie that rounds to the even digit. *)
Example RN_one_third :
  Qred (Float.RN (1 # 3)) = Qred (6004799503160661 # Z.to_pos (2 ^ 54)).
Proof. vm_compute. reflexivity. Qed.

Example RN_literal_065 :
  Qred (Float.literal (65 # 100)) = Qred (5854679515581645 # Z.to_pos (2 ^ 53)).
Proof. vm_compute. reflexivity. Qed.

Example round_33_33 :
  (Float.round (Float.mul (Float.int_truediv 1 3) (Float.of_int 100)) 2
   == Float.literal (3333 # 100))%Q.
Proof. vm_compute. reflexivity. Qed.

Example round_half_even_tie : (Float.round (1 # 8) 2 == Float.literal (12 # 100))%Q.
Proof. vm_compute. reflexivity. Qed.

(** The first five option letters. *)
Example option_letters :
  (fun j => chr (ord_A + N.of_nat j)) <$> [0; 1; 2; 3; 4]%nat
  = mret <$> ["A"; "B"; "C"; "D"; "E"].
Proof. reflexivity. Qed.

(** The detector keeps the fourteen bubbles of the sheet, sorted by position. *)
Example detect_sheet : _detect_bubbles __init__ sheet.pixels = mret sheet.bubbles.
Proof. vm_compute. reflexivity. Qed.

(** Only question 1 gets a mark: question 2 is degenerate and the fullest
    bubble of question 3 is half filled. *)
Example analyze_sheet :
  _analyze_bubbles __init__ sheet.pixels sheet.bubbles = mret {[ "1" := "B" ]}.
Proof. vm_compute. reflexivity. Qed.

(** The end-to-end scenario of the specification. *)
Example evaluate_scenario :
  let r := _evaluate_answers __init__ sheet.marks sheet.answer_key in
  score r = 1%nat ∧ total r = 3%nat
  ∧ (percentage r == Float.literal (3333 # 100))%Q
  ∧ result r
    = list_to_map [("1", "correct"); ("2", "incorrect"); ("3", "not_attempted")].
Proof. vm_compute. repeat split. Qed.

Lemma evaluator_status_and_score_scenario :
  let r := _evaluate_answers __init__ sheet.marks sheet.answer_key in
  result r !! "1" = Some "correct"
  ∧ result r !! "2" = Some "incorrect"
  ∧ result r !! "3" = Some "not_attempted".
Proof.
  pose proof (evaluator_status_and_score __init__ sheet.marks sheet.answer_key)
    as [_ Hstatus].
  split; [|split].
  - apply (Hstatus "1" "A"); [reflexivity|]. exists "A". by repeat split.
  - apply (Hstatus "2" "B"); [reflexivity|]. exists "C". by repeat split.
  - apply (Hstatus "3" "C"); [reflexivity|]. by right.
Defined.

Lemma percentage_bounds_scenario :
  let r := _evaluate_answers __init__ sheet.marks sheet.answer_key in
  (0 < size sheet.answer_key)%nat
  ∧ (0 < total r)%nat
  ∧ percentage r
    = Float.round
        (Float.mul (Float.int_truediv (Z.of_nat (score r)) (Z.of_nat (total r)))
                   (Float.of_int 100)) 2
  ∧ (0 <= percentage r)%Q ∧ (percentage r <= 100)%Q.
Proof.
  assert (0 < size sheet.answer_key)%nat as Hpos
    by (apply Nat.ltb_lt; vm_compute; reflexivity).
  split; [exact Hpos|].
  pose proof (percentage_formula_and_bounds __init__ sheet.marks sheet.answer_key)
    as (_ & _ & _ & Hformula & _).
  apply (Hformula Hpos).
Defined.

Lemma extractor_selection_on_sheet :
  ∃ marked j s,
    _analyze_bubbles __init__ sheet.pixels sheet.bubbles = mret marked
    ∧ Sorted left_of sheet.question_1
    ∧ leftmost_maximum (fill_percentage sheet.pixels <$> sheet.question_1) j s
    ∧ ((bubble_threshold __init__ < s)%Q →
         ∃ letter, chr (ord_A + N.of_nat j) = mret letter
                   ∧ marked !! pretty 1%nat = Some letter)
    ∧ ((s <= bubble_threshold __init__)%Q → marked !! pretty 1%nat = None).
Proof.
  apply (extractor_selection __init__ sheet.pixels sheet.bubbles 0 sheet.question_1).
  - unfold letters_in_range. vm_compute. discriminate.
  - vm_compute. reflexivity.
  - reflexivity.
Defined.

(** C4, as the specification words it, fails on the sheet: the contour of
    area exactly 20 lies in the closed band and is square, and is no
    bubble. *)
Lemma closed_band_filter_fails : ¬ closed_band_filter __init__ sheet.pixels.
Proof.
  intros (found & Hrun & Hfilter).
  rewrite detect_sheet in Hrun. injection Hrun as <-.
  assert (sheet.speck ∈ external_contours sheet.pixels) as Hin.
  { apply list_elem_of_In. vm_compute. tauto. }
  apply Hfilter in Hin as [_ Hin].
  assert (bubble_of sheet.speck ∈ sheet.bubbles) as Hbubble.
  { apply Hin. split; split; apply Qle_bool_iff; vm_compute; reflexivity. }
  apply list_elem_of_In in Hbubble. vm_compute in Hbubble.
  repeat (destruct Hbubble as [Hbubble|Hbubble]; [discriminate Hbubble|]).
  exact Hbubble.
Qed.

Lemma detector_filter_on_sheet :
  ∃ found,
    _detect_bubbles __init__ sheet.pixels = mret found
    ∧ (∀ c, c ∈ external_contours sheet.pixels →
         (bubble_of c ∈ found ↔ area_within __init__ c ∧ roughly_circular c))
    ∧ (∀ b, b ∈ found → ∃ c, c ∈ external_contours sheet.pixels ∧ b = bubble_of c).
Proof.
  apply (detector_filter __init__ sheet.pixels).
  unfold positive_heights. vm_compute. repeat constructor.
Defined.

Lemma row_grouper_sweep_on_sheet :
  StronglySorted above sheet.bubbles
  ∧ _group_bubbles_by_rows sheet.bubbles = row_sweep sheet.bubbles.
Proof.
  split.
  - apply (proj1 row_grouper_sweep __init__ sheet.pixels sheet.bubbles).
    vm_compute. reflexivity.
  - apply (proj2 row_grouper_sweep).
Defined.

Lemma degenerate_row_on_sheet :
  (∀ marked0,
     analyze_body __init__ sheet.pixels marked0 (2%nat, sheet.question_2) = mret marked0)
  ∧ ∃ marked,
      _analyze_bubbles __init__ sheet.pixels sheet.bubbles = mret marked
      ∧ marked !! pretty 2%nat = None
      ∧ (∀ i' row', _group_bubbles_by_rows sheet.bubbles !! i' = Some row' →
           row_mark __init__ sheet.pixels row' (marked !! pretty (S i')))
      ∧ (∀ key c, key !! pretty 2%nat = Some c →
           result (_evaluate_answers __init__ marked key) !! pretty 2%nat
           = Some "not_attempted").
Proof.
  apply (degenerate_row_absorbed __init__ sheet.pixels sheet.bubbles 1 sheet.question_2).
  - unfold letters_in_range. vm_compute. discriminate.
  - vm_compute. reflexivity.
  - vm_compute. discriminate.
Defined.

Lemma image_load_on_sheet :
  process_omr_sheet __init__ "missing.png" sheet.answer_key
  = raise (ValueError "Could not load image from missing.png")
  ∧ ∃ r, process_omr_sheet __init__ "sheet.png" sheet.answer_key = mret r.
Proof.
  split.
  - eapply proj1. apply (proj1 (image_load_failure_only __init__ "missing.png" sheet.answer_key)).
    reflexivity.
  - eapply (proj2 (image_load_failure_only __init__ "sheet.png" sheet.answer_key)).
    + reflexivity.
    + unfold letters_in_range. vm_compute. discriminate.
    + unfold positive_heights. vm_compute. repeat constructor.
Defined.

Lemma evaluator_result_complete_scenario :
  let r := _evaluate_answers __init__ sheet.marks sheet.answer_key in
  marked_answers r !! "3" = Some ""
  ∧ ("not_attempted" ∈ ["correct"; "incorrect"; "not_attempted"]
     ∧ "not_attempted" ≠ "invalid").
Proof.
  pose proof (evaluator_result_complete __init__ sheet.marks sheet.answer_key)
    as (_ & _ & Hmarks & Hvocabulary).
  split.
  - apply (Hmarks "3"). apply elem_of_dom. exists "C". reflexivity.
  - apply (Hvocabulary "3" "not_attempted"). vm_compute. reflexivity.
Defined.

(** Beyond the six fields of C9 the two processors differ: they report
    other diagnostics. *)
Remark mock_processing_info_differs :
  processing_info (mock_omr_utils.process_omr_sheet "sheet.png" sheet.answer_key)
  ≠ processing_info
      (_evaluate_answers __init__ mock_omr_utils.mock_marked_answers sheet.answer_key).
Proof. vm_compute. discriminate. Qed.

Import vocabulary.

(* ===================================================================== *)
(** ** More on the evaluator *)
(* ===================================================================== *)

Section EvaluatorMore.
Implicit Types (self : OMRProcessor) (marked key : gmap string string).

Lemma filter_status_insert (s x : string) (q : string) (m : gmap string string) :
  m !! q = None ->
  size (filter (has_status s) (<[q := x]> m))
  = ((if decide (x = s) then 1 else 0) + size (filter (has_status s) m))%nat.
Proof.
  intros Hq. destruct (decide (x = s)) as [->|Hne].
  - rewrite map_filter_insert_True by done.
    rewrite map_size_insert_None; [done|].
    apply map_lookup_filter_None. by left.
  - rewrite map_filter_insert_not'; [done|done|]. intros y Hy. congruence.
Qed.

(** In a map whose values are the three statuses, the three counts add up
    to the size. *)
Lemma status_counts (m : gmap string string) :
  map_Forall (fun _ s => s ∈ ["correct"; "incorrect"; "not_attempted"]) m ->
  (size (filter (has_status "correct") m)
   + size (filter (has_status "incorrect") m)
   + size (filter (has_status "not_attempted") m) = size m)%nat.
Proof.
  induction m as [|q x m Hq IH] using map_ind; intros Hall.
  - by rewrite !map_filter_empty, !map_size_empty.
  - apply map_Forall_insert in Hall as [Hx Hall]; [|done].
    rewrite !filter_status_insert, map_size_insert_None by done.
    specialize (IH Hall).
    repeat (apply elem_of_cons in Hx as [->|Hx]); [..|by apply elem_of_nil in Hx];
      repeat (destruct (decide _); try done); lia.
Qed.

Lemma status_vocabulary marked q c :
  status marked q c ∈ ["correct"; "incorrect"; "not_attempted"].
Proof. unfold status. repeat case_bool_decide; set_solver. Qed.

Lemma status_same_marks key marked1 marked2 q c :
  same_marks_on key marked1 marked2 -> key !! q = Some c ->
  status marked1 q c = status marked2 q c.
Proof.
  intros Hsame Hq. unfold status. rewrite (Hsame q); [done|].
  apply elem_of_dom. by eexists.
Qed.

(** The scoring fields of the result depend on the marks only through the
    letters they give to the questions of the key. *)
Lemma evaluate_same_marks self1 self2 marked1 marked2 key :
  same_marks_on key marked1 marked2 ->
  let r1 := _evaluate_answers self1 marked1 key in
  let r2 := _evaluate_answers self2 marked2 key in
  score r1 = score r2 ∧ total r1 = total r2 ∧ percentage r1 = percentage r2
  ∧ marked_answers r1 = marked_answers r2
  ∧ correct_answers r1 = correct_answers r2
  ∧ result r1 = result r2.
Proof.
  intros Hsame r1 r2. subst r1 r2.
  assert (result (_evaluate_answers self1 marked1 key)
          = result (_evaluate_answers self2 marked2 key)) as Hres.
  { apply map_eq. intros q. rewrite !evaluate_result.
    destruct (key !! q) as [c|] eqn:Hq; simpl; [|done].
    f_equal. by eapply status_same_marks. }
  assert (score (_evaluate_answers self1 marked1 key)
          = score (_evaluate_answers self2 marked2 key)) as Hscore.
  { by rewrite !evaluate_score, Hres. }
  split; [done|]. split; [by rewrite !evaluate_total|].
  split; [by rewrite !evaluate_percentage, Hscore|].
  split; [|split; [|done]].
  - apply map_eq. intros q. rewrite !evaluate_marked.
    destruct (key !! q) as [c|] eqn:Hq; simpl; [|done].
    f_equal. apply Hsame. apply elem_of_dom. by eexists.
  - unfold _evaluate_answers.
    by destruct (map_fold _ _ key), (map_fold (evaluate_body marked2) _ key).
Qed.

Lemma completed_same_marks self marked key :
  same_marks_on key (marked_answers (_evaluate_answers self marked key)) marked.
Proof.
  intros q [c Hq]%elem_of_dom. by rewrite evaluate_marked, Hq.
Qed.

End EvaluatorMore.

(* ===================================================================== *)
(** ** Floats that are exact *)
(* ===================================================================== *)

Section FloatExact.
Import Float.

(** Rounding does not cross an integer from above either. *)
Lemma RN_ge_int x c :
  0 < c -> (inject_Z c <= x)%Q -> (x <= inject_Z (2 ^ 52))%Q ->
  (inject_Z c <= RN x)%Q.
Proof.
  intros Hc Hle Hmax. unfold RN.
  assert (c * Z.pos (Qden x) <= Qnum x) as Hnd
    by (unfold Qle in Hle; simpl in Hle; lia).
  assert (Qnum x <= 2 ^ 52 * Z.pos (Qden x)) as Hbig
    by (unfold Qle in Hmax; simpl in Hmax; lia).
  assert (0 < Qnum x) as Hpos by nia.
  rewrite (proj2 (Z.eqb_neq _ 0)) by lia.
  rewrite (Z.abs_eq (Qnum x)) by lia. rewrite (proj2 (Z.sgn_pos_iff (Qnum x))) by lia.
  pose proof (exponent_nonpos (Qnum x) (Z.pos (Qden x)) Hpos ltac:(lia) Hbig) as He.
  set (e := exponent _ _) in *. clearbody e.
  unfold scaled, dyadic. destruct (0 <=? e) eqn:He0; rewrite Z.mul_1_l.
  - apply Z.leb_le in He0. assert (e = 0) as -> by lia.
    change (2 ^ 0) with 1. rewrite !Z.mul_1_r.
    unfold Qle; simpl. rewrite !Z.mul_1_r.
    apply round_half_even_ge; lia.
  - apply Z.leb_gt in He0.
    pose proof (Z.pow_pos_nonneg 2 (- e) ltac:(lia) ltac:(lia)) as Hp.
    unfold Qle; simpl. rewrite Z2Pos.id by lia. rewrite Z.mul_1_r.
    apply round_half_even_ge; [lia|]. nia.
Qed.

(** An integer up to [2^52] is a float. *)
Lemma RN_int_exact x c :
  0 < c <= 2 ^ 52 -> (x == inject_Z c)%Q -> (RN x == inject_Z c)%Q.
Proof.
  intros Hc Heq. apply Qle_antisym.
  - apply RN_le_int; [done| |].
    + rewrite Heq. unfold Qle; simpl; lia.
    + rewrite Heq. apply Qle_refl.
  - apply RN_ge_int; [lia| |].
    + rewrite Heq. apply Qle_refl.
    + rewrite Heq. unfold Qle; simpl. lia.
Qed.

Lemma round_half_even_exact k den : 0 < den -> round_half_even (k * den) den = k.
Proof.
  intros Hd. apply Z.le_antisymm.
  - apply round_half_even_le; lia.
  - apply round_half_even_ge; lia.
Qed.

(** Of [n] questions all correct, the percentage is 100. *)
Lemma percentage_all (t : Z) :
  0 < t ->
  (round (mul (int_truediv t t) (of_int 100)) 2 == 100)%Q.
Proof.
  intros Ht.
  assert (int_truediv t t == inject_Z 1)%Q as H1.
  { unfold int_truediv. apply RN_int_exact; [lia|].
    apply Qmult_inv_r. unfold Qeq; simpl. lia. }
  assert (mul (int_truediv t t) (of_int 100) == inject_Z 100)%Q as H100.
  { unfold mul. apply RN_int_exact; [lia|]. rewrite H1, of_int_100. reflexivity. }
  unfold round. change (10 ^ Z.of_nat 2) with 100. change (Z.to_pos 100) with 100%positive.
  set (y := (mul _ _ * inject_Z 100)%Q).
  assert (y == inject_Z 10000)%Q as Hy by (subst y; rewrite H100; reflexivity).
  clearbody y.
  assert (Qnum y = 10000 * Z.pos (Qden y)) as Hn
    by (unfold Qeq in Hy; simpl in Hy; lia).
  rewrite Hn, round_half_even_exact by lia.
  apply (RN_int_exact _ 100); [lia|]. reflexivity.
Qed.

(** Of [t] questions none correct, the percentage is 0. *)
Lemma percentage_none (t : Z) :
  round (mul (int_truediv 0 t) (of_int 100)) 2 = 0%Q.
Proof. reflexivity. Qed.

End FloatExact.

Section EvaluatorExtremes.
Context `{cv : OpenCV}.
Implicit Types (self : OMRProcessor) (marked key : gmap string string).

Lemma evaluate_size_result self marked key :
  size (result (_evaluate_answers self marked key)) = size key.
Proof.
  rewrite <-(size_dom (D := gset string) key), <-(evaluate_result_dom self marked key).
  by rewrite size_dom.
Qed.

Lemma evaluate_blank self marked key :
  (∀ q, q ∈ dom key → default "" (marked !! q) = "") ->
  let r := _evaluate_answers self marked key in
  score r = 0%nat ∧ percentage r = 0%Q
  ∧ ∀ q, q ∈ dom key → result r !! q = Some "not_attempted".
Proof.
  intros Hblank r. subst r.
  assert (∀ q, q ∈ dom key →
            result (_evaluate_answers self marked key) !! q = Some "not_attempted")
    as Hstatus.
  { intros q Hq. pose proof Hq as [c Hc]%elem_of_dom.
    rewrite evaluate_result, Hc. simpl. unfold status. by rewrite Hblank. }
  assert (score (_evaluate_answers self marked key) = 0%nat) as Hscore.
  { rewrite evaluate_score. apply map_size_empty_iff, map_empty_filter.
    intros q s Hq. unfold is_correct. simpl.
    rewrite Hstatus in Hq; [by injection Hq as <-|].
    rewrite <-(evaluate_result_dom self marked key). apply elem_of_dom. by eexists. }
  split; [done|]. split; [|done].
  rewrite evaluate_percentage, Hscore. by destruct (0 <? size key)%nat.
Qed.

Lemma evaluate_perfect self marked key :
  key ≠ ∅ ->
  (∀ q c, key !! q = Some c → c ≠ "" ∧ marked !! q = Some c) ->
  let r := _evaluate_answers self marked key in
  score r = total r ∧ (percentage r == 100)%Q
  ∧ ∀ q, q ∈ dom key → result r !! q = Some "correct".
Proof.
  intros Hkey Hmarks r. subst r.
  assert (∀ q c, key !! q = Some c →
            result (_evaluate_answers self marked key) !! q = Some "correct")
    as Hstatus.
  { intros q c Hc. destruct (Hmarks q c Hc) as [Hne Hq].
    rewrite evaluate_result, Hc. simpl. unfold status. rewrite Hq. simpl.
    by rewrite bool_decide_false, bool_decide_true by done. }
  assert (score (_evaluate_answers self marked key) = size key) as Hscore.
  { rewrite evaluate_score, map_filter_id; [apply evaluate_size_result|].
    intros q s Hq. unfold is_correct. simpl.
    assert (is_Some (key !! q)) as [c Hc].
    { apply elem_of_dom. rewrite <-(evaluate_result_dom self marked key).
      apply elem_of_dom. by eexists. }
    rewrite (Hstatus q c Hc) in Hq. by injection Hq as <-. }
  split; [by rewrite Hscore, evaluate_total|]. split.
  - rewrite evaluate_percentage, Hscore.
    assert (0 < size key)%nat as Hpos.
    { apply map_size_non_empty_iff in Hkey. lia. }
    rewrite (proj2 (Nat.ltb_lt _ _) Hpos). apply percentage_all. lia.
  - intros q [c Hc]%elem_of_dom. by eapply Hstatus.
Qed.

Lemma evaluate_info self marked key :
  processing_info (_evaluate_answers self marked key)
  = Some {| total_bubbles_detected := size marked;
            detection_threshold := bubble_threshold self;
            image_processing := "adaptive_threshold" |}.
Proof. unfold _evaluate_answers. by destruct (map_fold _ _ key). Qed.

(** The stand-in processor scores as the evaluator does on its marks. *)
Lemma mock_as_evaluate self image_path key :
  score (mock_omr_utils.process_omr_sheet image_path key)
  = score (_evaluate_answers self mock_omr_utils.mock_marked_answers key)
  ∧ result (mock_omr_utils.process_omr_sheet image_path key)
    = result (_evaluate_answers self mock_omr_utils.mock_marked_answers key).
Proof.
  unfold mock_omr_utils.process_omr_sheet, _evaluate_answers.
  change (mock_omr_utils.score_body) with evaluate_body.
  destruct (map_fold (evaluate_body _) _ key) as [correct_count result_details].
  simpl. done.
Qed.

Lemma sort_by_position_le (bubbles : list Bubble) :
  StronglySorted position_le (sort_by (fun b => (b_y b, b_x b)) tuple_leb bubbles).
Proof.
  pose proof (sort_by_sorted (fun b : Bubble => (b_y b, b_x b)) tuple_leb
                tuple_leb_total bubbles) as Hs.
  apply Sorted_StronglySorted in Hs.
  - eapply StronglySorted_weaken; [|exact Hs].
    intros a b. unfold position_le, tuple_leb; simpl. lia.
  - intros a b c. unfold tuple_leb; simpl. lia.
Qed.

End EvaluatorExtremes.

(* ===================================================================== *)
(** ** More on the row grouper *)
(* ===================================================================== *)

Section GrouperMore.
Context `{cv : OpenCV}.
Implicit Types (bubbles row : list Bubble).

Lemma sort_by_x_elem (a : Bubble) row : a ∈ sort_by b_x Z.leb row -> a ∈ row.
Proof. by rewrite sort_by_perm. Qed.

Lemma elem_sort_by_x (a : Bubble) row : a ∈ row -> a ∈ sort_by b_x Z.leb row.
Proof. by rewrite sort_by_perm. Qed.

(** The sweep over a list sorted by [y]: [row] lies in the band
    [[reference, reference + 30)] and holds a bubble at [reference]. *)
Lemma sweep_rows_bands rest : forall reference row,
  (∃ a, a ∈ row ∧ b_y a = reference) ->
  (∀ a, a ∈ row → reference <= b_y a < reference + 30) ->
  StronglySorted above rest ->
  (∀ a b, a ∈ row → b ∈ rest → b_y a <= b_y b) ->
  Forall within_band (sweep_rows reference row rest)
  ∧ StronglySorted separated (sweep_rows reference row rest)
  ∧ Forall (fun r => ∀ b, b ∈ r → reference <= b_y b) (sweep_rows reference row rest).
Proof.
  induction rest as [|b rest IH]; intros reference row Href Hband Hsorted Hbelow.
  - simpl. split; [|split].
    + constructor; [|constructor]. intros a1 a2 H1%sort_by_x_elem H2%sort_by_x_elem.
      pose proof (Hband a1 H1). pose proof (Hband a2 H2). lia.
    + repeat constructor.
    + constructor; [|constructor]. intros a Ha%sort_by_x_elem.
      pose proof (Hband a Ha). lia.
  - apply StronglySorted_inv in Hsorted as [Hsorted Hfirst].
    assert (reference <= b_y b) as Hb.
    { destruct Href as (a & Ha & <-). apply Hbelow; [done|left]. }
    cbn [sweep_rows]. destruct (Z.abs (b_y b - reference) <? 30) eqn:Hnear.
    + apply Z.ltb_lt in Hnear. apply IH; [| |done|].
      * destruct Href as (a & Ha & Heq). exists a. split; [|done].
        apply elem_of_app. by left.
      * intros a [Ha|Ha%list_elem_of_singleton]%elem_of_app; [by apply Hband|].
        subst a. lia.
      * intros a b' [Ha|Ha%list_elem_of_singleton]%elem_of_app Hb'.
        -- apply Hbelow; [done|by right].
        -- subst a. rewrite Forall_forall in Hfirst. by apply Hfirst.
    + apply Z.ltb_ge in Hnear.
      destruct (IH (b_y b) [b]) as (Hbands & Hsep & Hlow); [| |done| |].
      * exists b. split; [left|done].
      * intros a Ha%list_elem_of_singleton. subst a. lia.
      * intros a b' Ha%list_elem_of_singleton Hb'. subst a.
        rewrite Forall_forall in Hfirst. by apply Hfirst.
      * split; [|split].
        -- constructor; [|done].
           intros a1 a2 H1%sort_by_x_elem H2%sort_by_x_elem.
           pose proof (Hband a1 H1). pose proof (Hband a2 H2). lia.
        -- constructor; [done|].
           eapply Forall_impl; [exact Hlow|]. intros r Hr. split.
           ++ intros a b' Ha%sort_by_x_elem Hb'.
              pose proof (Hband a Ha). pose proof (Hr b' Hb'). lia.
           ++ destruct Href as (a & Ha & Heq). exists a.
              split; [by apply elem_sort_by_x|].
              intros b' Hb'. pose proof (Hr b' Hb'). lia.
        -- constructor.
           ++ intros a Ha%sort_by_x_elem. pose proof (Hband a Ha). lia.
           ++ eapply Forall_impl; [exact Hlow|]. intros r Hr b' Hb'.
              pose proof (Hr b' Hb'). lia.
Qed.

Lemma group_rows_bands bubbles :
  StronglySorted above bubbles ->
  Forall within_band (_group_bubbles_by_rows bubbles)
  ∧ StronglySorted separated (_group_bubbles_by_rows bubbles).
Proof.
  intros Hsorted. rewrite group_is_sweep.
  destruct bubbles as [|first rest]; simpl; [by repeat constructor|].
  apply StronglySorted_inv in Hsorted as [Hsorted Hfirst].
  destruct (sweep_rows_bands rest (b_y first) [first]) as (? & ? & _); [| |done| |done].
  - exists first. split; [left|done].
  - intros a Ha%list_elem_of_singleton. subst a. lia.
  - intros a b Ha%list_elem_of_singleton Hb. subst a.
    rewrite Forall_forall in Hfirst. by apply Hfirst.
Qed.

(** There are no more rows than bubbles. *)
Lemma concat_length_nonempty {A : Type} (ls : list (list A)) :
  Forall (fun l => l <> []) ls -> (length ls <= length (concat ls))%nat.
Proof.
  induction 1 as [|l ls Hl _ IH]; simpl; [done|].
  rewrite length_app. destruct l; [done|]. simpl. lia.
Qed.

Lemma group_rows_count bubbles :
  (length (_group_bubbles_by_rows bubbles) <= length bubbles)%nat.
Proof.
  rewrite <-(Permutation_length (group_rows_concat bubbles)).
  apply concat_length_nonempty, group_rows_nonempty.
Qed.

End GrouperMore.

(* ===================================================================== *)
(** ** More on the answer extractor and the whole call *)
(* ===================================================================== *)

Section ExtractorMore.
Context `{cv : OpenCV}.
Implicit Types (self : OMRProcessor) (image : list (list Z)).

Lemma chr_nonempty n letter : chr n = mret letter -> letter <> "".
Proof.
  unfold chr. repeat case_match; intros [= <-]; done.
Qed.

Lemma question_number_inj i j : pretty (S i) = pretty (S j) -> i = j.
Proof. intros Heq. apply (inj pretty) in Heq. lia. Qed.

(** The marks hold the marks of the rows and nothing else. *)
Lemma analyze_marks_origin self image bubbles :
  letters_in_range self ->
  ∃ marked,
    _analyze_bubbles self image bubbles = mret marked
    ∧ (∀ i row, _group_bubbles_by_rows bubbles !! i = Some row →
         row_mark self image row (marked !! pretty (S i)))
    ∧ (∀ q, (∀ i, (i < length (_group_bubbles_by_rows bubbles))%nat → q ≠ pretty (S i)) →
         marked !! q = None).
Proof.
  intros Hletters. unfold _analyze_bubbles.
  destruct (analyze_loop self image (_group_bubbles_by_rows bubbles) 1%nat ∅ Hletters
              (group_rows_nonempty bubbles)) as (marked & Hrun & Hrows & Hother).
  exists marked. split; [done|]. split.
  - intros i row Hi. destruct (Hrows i row Hi) as (o & Ho & Hlook).
    simpl in Hlook. rewrite Hlook. by destruct o.
  - intros q Hq. by rewrite Hother.
Qed.

(** Where an entry of the marks comes from. *)
Lemma mark_origin self image bubbles (marked : gmap string string) q letter :
  (∀ i row, _group_bubbles_by_rows bubbles !! i = Some row →
     row_mark self image row (marked !! pretty (S i))) ->
  (∀ q, (∀ i, (i < length (_group_bubbles_by_rows bubbles))%nat → q ≠ pretty (S i)) →
     marked !! q = None) ->
  marked !! q = Some letter ->
  ∃ i row j,
    q = pretty (S i)
    ∧ _group_bubbles_by_rows bubbles !! i = Some row
    ∧ length row = questions_per_row self
    ∧ (j < questions_per_row self)%nat
    ∧ chr (ord_A + N.of_nat j) = mret letter.
Proof.
  intros Hrows Hother Hq.
  destruct (decide (Exists (fun i => q = pretty (S i))
                      (seq 0 (length (_group_bubbles_by_rows bubbles))))) as [Hex|Hno].
  - apply Exists_exists in Hex as (i & Hi & ->). apply elem_of_seq in Hi.
    destruct (lookup_lt_is_Some_2 (_group_bubbles_by_rows bubbles) i) as [row Hrow]; [lia|].
    specialize (Hrows i row Hrow). rewrite Hq in Hrows. unfold row_mark in Hrows.
    destruct (decide (length row = questions_per_row self)) as [Hlen|]; [|done].
    destruct Hrows as (j & s & (Hj & _) & Hmark).
    destruct (Float.ltb (bubble_threshold self) s); [|done].
    destruct Hmark as (letter' & Hchr & [= ->]).
    exists i, row, j. repeat split; try done.
    apply lookup_lt_Some in Hj. by rewrite length_fmap, Hlen in Hj.
  - rewrite Hother in Hq; [done|]. intros i Hi ->. apply Hno.
    apply Exists_exists. exists i. split; [|done]. apply elem_of_seq. lia.
Qed.

(** There are no more marks than rows. *)
Lemma marks_count bubbles (marked : gmap string string) :
  (∀ q, (∀ i, (i < length (_group_bubbles_by_rows bubbles))%nat → q ≠ pretty (S i)) →
     marked !! q = None) ->
  (size marked <= length (_group_bubbles_by_rows bubbles))%nat.
Proof.
  intros Hother.
  set (numbers := (fun i => pretty (S i)) <$> seq 0 (length (_group_bubbles_by_rows bubbles))).
  assert (dom marked ⊆ list_to_set (C := gset string) numbers) as Hsub.
  { intros q [letter Hq]%elem_of_dom. apply elem_of_list_to_set.
    destruct (decide (q ∈ numbers)) as [|Hno]; [done|].
    rewrite Hother in Hq; [done|]. intros i Hi ->. apply Hno.
    apply list_elem_of_fmap. exists i. split; [done|]. apply elem_of_seq. lia. }
  apply subseteq_size in Hsub. rewrite size_dom in Hsub.
  rewrite size_list_to_set in Hsub.
  - subst numbers. by rewrite length_fmap, length_seq in Hsub.
  - subst numbers. apply NoDup_fmap_2; [|apply NoDup_seq].
    intros i j. apply question_number_inj.
Qed.

End ExtractorMore.

(* ===================================================================== *)
(** ** Grades *)
(* ===================================================================== *)

Section Grades.
Import batch_omr_app pdf_generator.

Lemma threshold_mono (k p p' : Q) :
  (p <= p')%Q -> Float.leb k p = true -> Float.leb k p' = true.
Proof.
  intros Hle Hk. apply leb_le. apply leb_le in Hk. by eapply Qle_trans.
Qed.

Lemma threshold_above (k : Z) (p : Q) :
  (inject_Z k <= p)%Q -> Float.leb (k # 1) p = true.
Proof. apply leb_le. Qed.

Lemma threshold_below (k hi : Z) (p : Q) :
  (p <= inject_Z hi)%Q -> hi < k -> Float.leb (k # 1) p = false.
Proof.
  intros Hle Hlt. destruct (Float.leb (k # 1) p) eqn:Hk; [|done].
  apply leb_le in Hk. pose proof (Qle_trans _ _ _ Hk Hle) as Hkhi.
  unfold Qle in Hkhi; simpl in Hkhi. lia.
Qed.

Lemma grade_rank_mono (p p' : Q) :
  (p <= p')%Q ->
  (grade_rank (calculate_grade p) <= grade_rank (calculate_grade p'))%nat.
Proof.
  intros Hle. unfold calculate_grade.
  destruct (Float.leb 90 p) eqn:H90.
  { by rewrite (threshold_mono _ _ _ Hle H90). }
  destruct (Float.leb 80 p) eqn:H80.
  { rewrite (threshold_mono _ _ _ Hle H80). by destruct (Float.leb 90 p'); vm_compute; lia. }
  destruct (Float.leb 70 p) eqn:H70.
  { rewrite (threshold_mono _ _ _ Hle H70).
    by repeat (destruct (Float.leb _ p'); [vm_compute; lia|]). }
  destruct (Float.leb 60 p) eqn:H60.
  { rewrite (threshold_mono _ _ _ Hle H60).
    by repeat (destruct (Float.leb _ p'); [vm_compute; lia|]). }
  destruct (Float.leb 50 p) eqn:H50.
  { rewrite (threshold_mono _ _ _ Hle H50).
    by repeat (destruct (Float.leb _ p'); [vm_compute; lia|]). }
  destruct (Float.leb 40 p) eqn:H40.
  { rewrite (threshold_mono _ _ _ Hle H40).
    by repeat (destruct (Float.leb _ p'); [vm_compute; lia|]). }
  change (grade_rank "F") with 0%nat. lia.
Qed.

Lemma grade_in_band (g : string) (lo hi : Z) (p : Q) :
  enhanced_models.grade_scale !! g = Some (lo, hi) ->
  (inject_Z lo <= p)%Q -> (p <= inject_Z hi)%Q ->
  calculate_grade p = g.
Proof.
  intros Hband Hlo Hhi. unfold enhanced_models.grade_scale in Hband.
  apply elem_of_list_to_map_2, list_elem_of_In in Hband. simpl in Hband.
  unfold calculate_grade.
  repeat (destruct Hband as [[= <- <- <-]|Hband];
          [repeat first
             [ rewrite (threshold_above _ p Hlo)
             | rewrite (threshold_below _ _ p Hhi) by lia ]; reflexivity|]).
  done.
Qed.

Lemma grade_label (p : Q) : calculate_grade p ∈ dom enhanced_models.grade_scale.
Proof.
  unfold calculate_grade.
  repeat (destruct (Float.leb _ p); [apply elem_of_dom; eexists; reflexivity|]).
  apply elem_of_dom; eexists; reflexivity.
Qed.

End Grades.

(* ===================================================================== *)
(** ** The report generator *)
(* ===================================================================== *)

Section Reports.
Import reportlab pdf_generator batch_omr_app.
Variables (format_1f float_str : Q -> string) (float_sum : list Q -> Q).
Variable int_accepts : string -> bool.
Implicit Types (entry : gmap string value) (results : list (gmap string value)).

Lemma report_bind_ret {A B : Type} (x : A) (k : A -> report B) : (mret x ≫= k) = k x.
Proof. reflexivity. Qed.

Lemma report_bind_fail {A B : Type} (e : error) (k : A -> report B) :
  (fail e ≫= k) = fail e.
Proof. reflexivity. Qed.

Lemma attribute_no_result {A : Type} name (field : OMRResult -> A) (v : value) :
  (∀ r, v ≠ VResult r) -> ∃ msg, attribute name field v = fail (AttributeError msg).
Proof. intros Hv. destruct v; simpl; try by eexists. by destruct (Hv r). Qed.

(** The comprehension over the entries that have the key ['omr_result']. *)
Lemma collect_graded {A : Type} name (field : OMRResult -> A) results :
  ¬ Exists holds_no_result results ->
  collect (attribute name field) results = mret (field <$> omap graded results).
Proof.
  induction results as [|entry results IH]; intros Hok; [done|].
  assert (collect (attribute name field) results = mret (field <$> omap graded results))
    as Hrest by (apply IH; intros Hex; apply Hok; by right).
  cbn [collect]. change (omap graded (entry :: results))
    with (match graded entry with
          | Some r => r :: omap graded results
          | None => omap graded results
          end).
  unfold graded at 1.
  destruct (entry !! "omr_result") as [v|] eqn:Hv; [|done].
  destruct v as [| | |r].
  1-3: (exfalso; apply Hok; left; eexists; split; [exact Hv|done]).
  simpl. by rewrite Hrest.
Qed.

Lemma collect_fails {A : Type} name (field : OMRResult -> A) results :
  Exists holds_no_result results ->
  ∃ msg, collect (attribute name field) results = fail (AttributeError msg).
Proof.
  induction 1 as [entry results (v & Hv & Hno)|entry results _ IH].
  - cbn [collect]. rewrite Hv.
    destruct (attribute_no_result name field v Hno) as [msg ->]. by exists msg.
  - cbn [collect]. destruct (entry !! "omr_result") as [v|]; [|done].
    destruct v as [| | |r]; try by eexists.
    simpl. destruct IH as [msg ->]. by exists msg.
Qed.

Lemma error_result_holds_no_result filename message :
  holds_no_result (error_result filename message).
Proof. exists VNone. split; [reflexivity|done]. Qed.

End Reports.

Section Columns.
Import pdf_generator.

Lemma letters_app (s1 s2 : string) : letters (s1 +:+ s2) = letters s1 ++ letters s2.
Proof. induction s1 as [|c s1 IH]; simpl; [done|]. by rewrite <-IH. Qed.

Lemma letters_inj (s1 s2 : string) : letters s1 = letters s2 -> s1 = s2.
Proof.
  revert s2. induction s1 as [|c s1 IH]; intros [|d s2]; simpl; try done.
  intros [= -> Heq]. f_equal. by apply IH.
Qed.

(** The names of the columns of two questions, or of two kinds, differ. *)
Lemma column_inj (q1 q2 suffix : string) :
  "Q" +:+ q1 +:+ suffix = "Q" +:+ q2 +:+ suffix -> q1 = q2.
Proof.
  intros Heq. apply (f_equal letters) in Heq. rewrite !letters_app in Heq.
  apply app_inv_head, app_inv_tail in Heq. by apply letters_inj.
Qed.

Lemma marked_not_correct (q1 q2 : string) :
  "Q" +:+ q1 +:+ "_Marked" <> "Q" +:+ q2 +:+ "_Correct".
Proof.
  intros Heq. apply (f_equal letters) in Heq. rewrite !letters_app in Heq.
  change (letters "_Marked") with (letters "_Marke" ++ [ascii_of_nat 100]) in Heq.
  change (letters "_Correct") with (letters "_Correc" ++ [ascii_of_nat 116]) in Heq.
  rewrite !app_assoc in Heq. by apply app_inj_tail in Heq as [_ ?].
Qed.

Lemma marked_not_result (q1 q2 : string) :
  "Q" +:+ q1 +:+ "_Marked" <> "Q" +:+ q2 +:+ "_Result".
Proof.
  intros Heq. apply (f_equal letters) in Heq. rewrite !letters_app in Heq.
  change (letters "_Marked") with (letters "_Marke" ++ [ascii_of_nat 100]) in Heq.
  change (letters "_Result") with (letters "_Resul" ++ [ascii_of_nat 116]) in Heq.
  rewrite !app_assoc in Heq. by apply app_inj_tail in Heq as [_ ?].
Qed.

Lemma correct_not_result (q1 q2 : string) :
  "Q" +:+ q1 +:+ "_Correct" <> "Q" +:+ q2 +:+ "_Result".
Proof.
  intros Heq. apply (f_equal letters) in Heq. rewrite !letters_app in Heq.
  change (letters "_Correct")
    with ((letters "_Corre" ++ [ascii_of_nat 99]) ++ [ascii_of_nat 116]) in Heq.
  change (letters "_Result")
    with ((letters "_Resu" ++ [ascii_of_nat 108]) ++ [ascii_of_nat 116]) in Heq.
  rewrite !app_assoc in Heq. apply app_inj_tail in Heq as [Heq _].
  by apply app_inj_tail in Heq as [_ ?].
Qed.

End Columns.

Section ReportLoops.
Import reportlab pdf_generator batch_omr_app.
Variable float_str : Q -> string.
Variable int_accepts : string -> bool.
Implicit Types (entry : gmap string value) (results : list (gmap string value)).

Lemma omap_cons_list {A B : Type} (f : A -> option B) (x : A) (l : list A) :
  omap f (x :: l) = option_list (f x) ++ omap f l.
Proof. simpl. by destruct (f x). Qed.

Lemma get_student entry key :
  well_formed entry ->
  get (default (VDict ∅) (entry !! "student_info")) key "Unknown"
  = mret (student entry key).
Proof.
  intros [_ [Hinfo|[d Hinfo]]]; unfold student; rewrite Hinfo; simpl; [|done].
  by rewrite lookup_empty.
Qed.

(** One turn of the loop of the detailed table. *)
Lemma detailed_row_spec table_data i entry :
  well_formed entry ->
  detailed_row float_str table_data (i, entry)
  = mret (table_data ++ option_list (detail float_str i entry)).
Proof.
  intros Hwf. unfold detailed_row, detail, graded.
  pose proof (get_student entry "name" Hwf) as Hname.
  pose proof (get_student entry "roll_number" Hwf) as Hroll.
  destruct Hwf as [[Hr|[Hr|[r Hr]]] _]; rewrite Hr in *; simpl.
  - by rewrite app_nil_r.
  - by rewrite app_nil_r.
  - by rewrite Hname, Hroll.
Qed.

Lemma rows_loop_spec results : forall start table_data,
  Forall well_formed results ->
  rows_loop float_str (enumerate results start) table_data
  = mret (table_data
          ++ omap (fun item => detail float_str item.1 item.2) (enumerate results start)).
Proof.
  induction results as [|entry results IH]; intros start table_data Hwf.
  - simpl. by rewrite app_nil_r.
  - apply Forall_cons in Hwf as [Hentry Hwf].
    cbn [enumerate rows_loop]. rewrite detailed_row_spec by done.
    rewrite report_bind_ret, IH by done.
    by rewrite omap_cons_list, app_assoc.
Qed.

Lemma detail_rows_length results : forall start,
  length (omap (fun item => detail float_str item.1 item.2) (enumerate results start))
  = length (omap graded results).
Proof.
  induction results as [|entry results IH]; intros start; [done|].
  cbn [enumerate]. rewrite !omap_cons_list, !length_app, IH.
  unfold detail. simpl. by destruct (graded entry).
Qed.

Lemma detail_rows_elem results row : forall start,
  row ∈ omap (fun item => detail float_str item.1 item.2) (enumerate results start)
  ↔ ∃ i entry, results !! i = Some entry ∧ detail float_str (start + i) entry = Some row.
Proof.
  induction results as [|entry results IH]; intros start.
  - simpl. split; [by intros ?%elem_of_nil|]. by intros (i & e & ? & _).
  - cbn [enumerate]. rewrite omap_cons_list, elem_of_app, IH. cbn [fst snd]. split.
    + intros [Hrow|(i & e & Hi & Hrow)].
      * exists 0%nat, entry. split; [done|]. rewrite Nat.add_0_r.
        destruct (detail float_str start entry); simpl in Hrow;
          [by apply list_elem_of_singleton in Hrow as ->|by apply elem_of_nil in Hrow].
      * exists (S i), e. split; [done|]. by rewrite Nat.add_succ_r.
    + intros ([|i] & e & Hi & Hrow); simpl in Hi.
      * left. injection Hi as ->. rewrite Nat.add_0_r in Hrow. rewrite Hrow. by left.
      * right. exists i, e. split; [done|]. by rewrite Nat.add_succ_r in Hrow.
Qed.

(** The fold over the question numbers keeps every column whose name does
    not start with Q, and writes the three columns of every question. *)
Lemma question_columns_spec (r : OMRResult) (row : gmap string cell) (key : gmap string string) :
  let filled := map_fold (question_columns r) row key in
  (∀ name, (∀ rest, name ≠ String "Q" rest) → filled !! name = row !! name)
  ∧ (∀ q c, key !! q = Some c →
       filled !! ("Q" +:+ q +:+ "_Marked")
       = Some (CStr (default "" (marked_answers r !! q)))
       ∧ filled !! ("Q" +:+ q +:+ "_Correct")
         = Some (CStr (default "" (correct_answers r !! q)))
       ∧ filled !! ("Q" +:+ q +:+ "_Result")
         = Some (CStr (default "" (result r !! q)))).
Proof.
  apply (map_fold_weak_ind
           (fun filled key =>
              (∀ name, (∀ rest, name ≠ String "Q" rest) → filled !! name = row !! name)
              ∧ (∀ q c, key !! q = Some c →
                   filled !! ("Q" +:+ q +:+ "_Marked")
                   = Some (CStr (default "" (marked_answers r !! q)))
                   ∧ filled !! ("Q" +:+ q +:+ "_Correct")
                     = Some (CStr (default "" (correct_answers r !! q)))
                   ∧ filled !! ("Q" +:+ q +:+ "_Result")
                     = Some (CStr (default "" (result r !! q)))))).
  - split; [done|]. intros q c Hq. by rewrite lookup_empty in Hq.
  - intros q c m filled Hfresh [Hfixed Hcolumns]. unfold question_columns. split.
    + intros name Hname. rewrite !lookup_insert_ne; [by apply Hfixed|..];
        intros <-; by eapply Hname.
    + intros q' c' Hq'. destruct (decide (q = q')) as [->|Hne].
      * split; [|split].
        -- rewrite lookup_insert_ne by (intros Heq; by eapply marked_not_result).
           rewrite lookup_insert_ne by (intros Heq; by eapply marked_not_correct).
           by rewrite lookup_insert_eq.
        -- rewrite lookup_insert_ne by (intros Heq; by eapply correct_not_result).
           by rewrite lookup_insert_eq.
        -- by rewrite lookup_insert_eq.
      * rewrite lookup_insert_ne in Hq' by done.
        destruct (Hcolumns q' c' Hq') as (Hm & Hc & Hr).
        split; [|split].
        -- rewrite !lookup_insert_ne; [done|..]; intros Heq.
           ++ by apply column_inj in Heq.
           ++ symmetry in Heq. by eapply marked_not_correct.
           ++ symmetry in Heq. by eapply marked_not_result.
        -- rewrite !lookup_insert_ne; [done|..]; intros Heq.
           ++ by eapply marked_not_correct.
           ++ by apply column_inj in Heq.
           ++ symmetry in Heq. by eapply correct_not_result.
        -- rewrite !lookup_insert_ne; [done|..]; intros Heq.
           ++ by eapply marked_not_result.
           ++ by eapply correct_not_result.
           ++ by apply column_inj in Heq.
Qed.

End ReportLoops.

Section CsvLoop.
Import reportlab pdf_generator batch_omr_app.
Variable int_accepts : string -> bool.
Implicit Types (entry : gmap string value) (results : list (gmap string value)).

Lemma csv_row_ungraded data entry :
  well_formed entry -> graded entry = None ->
  csv_row int_accepts data entry = mret data.
Proof.
  intros [[Hr|[Hr|[r Hr]]] _]; unfold graded, csv_row; rewrite Hr; simpl; done.
Qed.

Lemma csv_row_graded data entry r :
  well_formed entry -> graded entry = Some r -> numbered int_accepts r ->
  ∃ row, csv_row int_accepts data entry = mret (data ++ [row])
         ∧ csv_row_of (entry, r) row.
Proof.
  intros Hwf Hgraded Hnumbered.
  pose proof (get_student entry "name" Hwf) as Hname.
  pose proof (get_student entry "roll_number" Hwf) as Hroll.
  unfold graded in Hgraded. unfold csv_row.
  destruct (entry !! "omr_result") as [[| | |r']|]; try done.
  injection Hgraded as ->. cbn [default from_option id truthy].
  rewrite Hname, Hroll, !report_bind_ret.
  rewrite bool_decide_true by done.
  eexists. split; [done|].
  match goal with |- csv_row_of _ (map_fold _ ?row _) =>
    destruct (question_columns_spec r row (correct_answers r)) as [Hfixed Hcolumns]
  end.
  unfold csv_row_of.
  repeat (split; [by rewrite Hfixed by done|]).
  intros q c Hq. destruct (Hcolumns q c Hq) as (Hm & Hc & Hr).
  by rewrite Hm, Hc, Hr, Hq.
Qed.

Lemma csv_row_rejected data entry r :
  well_formed entry -> graded entry = Some r -> ¬ numbered int_accepts r ->
  csv_row int_accepts data entry = fail ValueError.
Proof.
  intros Hwf Hgraded Hnumbered.
  pose proof (get_student entry "name" Hwf) as Hname.
  pose proof (get_student entry "roll_number" Hwf) as Hroll.
  unfold graded in Hgraded. unfold csv_row.
  destruct (entry !! "omr_result") as [[| | |r']|]; try done.
  injection Hgraded as ->. cbn [default from_option id truthy].
  rewrite Hname, Hroll, !report_bind_ret.
  by rewrite bool_decide_false by done.
Qed.

Lemma graded_entries_cons entry results :
  graded_entries (entry :: results)
  = option_list (r ← graded entry; Some (entry, r)) ++ graded_entries results.
Proof. unfold graded_entries. by rewrite omap_cons_list. Qed.

Lemma csv_loop_rows results : forall data,
  Forall well_formed results ->
  Forall (fun item => numbered int_accepts item.2) (graded_entries results) ->
  ∃ rows, csv_loop int_accepts results data = mret (data ++ rows)
          ∧ Forall2 csv_row_of (graded_entries results) rows.
Proof.
  induction results as [|entry results IH]; intros data Hwf Hnumbered.
  - exists []. split; [by rewrite app_nil_r|constructor].
  - apply Forall_cons in Hwf as [Hentry Hwf].
    rewrite graded_entries_cons in Hnumbered |- *. cbn [csv_loop].
    destruct (graded entry) as [r|] eqn:Hgraded; simpl in Hnumbered |- *.
    + apply Forall_cons in Hnumbered as [Hr Hnumbered].
      destruct (csv_row_graded data entry r Hentry Hgraded Hr) as (row & -> & Hrow).
      rewrite report_bind_ret.
      destruct (IH (data ++ [row]) Hwf Hnumbered) as (rows & -> & Hrows).
      exists (row :: rows). split; [by rewrite <-app_assoc|by constructor].
    + rewrite csv_row_ungraded, report_bind_ret by done. by apply IH.
Qed.

Lemma csv_loop_rejected results : forall data,
  Forall well_formed results ->
  Exists (fun item => ¬ numbered int_accepts item.2) (graded_entries results) ->
  csv_loop int_accepts results data = fail ValueError.
Proof.
  induction results as [|entry results IH]; intros data Hwf Hbad.
  - by apply Exists_nil in Hbad.
  - apply Forall_cons in Hwf as [Hentry Hwf].
    rewrite graded_entries_cons in Hbad. cbn [csv_loop].
    destruct (graded entry) as [r|] eqn:Hgraded; simpl in Hbad.
    + destruct (decide (numbered int_accepts r)) as [Hr|Hr].
      * destruct (csv_row_graded data entry r Hentry Hgraded Hr) as (row & -> & _).
        rewrite report_bind_ret. apply IH; [done|].
        apply Exists_cons in Hbad as [Hbad|Hbad]; [done|done].
      * by rewrite (csv_row_rejected data entry r).
    + rewrite csv_row_ungraded, report_bind_ret by done. by apply IH.
Qed.

End CsvLoop.

Section Entries.
Import reportlab pdf_generator batch_omr_app.

Lemma error_result_well_formed filename message :
  well_formed (error_result filename message).
Proof.
  split.
  - right. left. reflexivity.
  - right. eexists. reflexivity.
Qed.

Lemma error_result_not_graded filename message :
  graded (error_result filename message) = None.
Proof. reflexivity. Qed.

Lemma graded_well_formed (entry : gmap string value) r info :
  entry !! "omr_result" = Some (VResult r) ->
  entry !! "student_info" = info ->
  (info = None ∨ ∃ d, info = Some (VDict d)) ->
  well_formed entry.
Proof.
  intros Hr Hinfo Hd. split.
  - right. right. by exists r.
  - by rewrite Hinfo.
Qed.

(** On well-formed entries the value without attributes is [None]. *)
Lemma collect_fails_none {A : Type} name (field : OMRResult -> A) results :
  Forall well_formed results ->
  Exists holds_no_result results ->
  collect (attribute name field) results = no_attribute VNone name.
Proof.
  intros Hwf. induction Hwf as [|entry results [Hres _] _ IH]; intros Hex.
  - by apply Exists_nil in Hex.
  - simpl. destruct Hres as [Hnone|[Hnone|[r Hr]]].
    + rewrite Hnone. apply IH. apply Exists_cons in Hex as [(v & Hv & _)|Hex]; [|done].
      by rewrite Hnone in Hv.
    + by rewrite Hnone.
    + rewrite Hr. cbn [attribute]. rewrite report_bind_ret, IH; [done|].
      apply Exists_cons in Hex as [(v & Hv & Hno)|Hex]; [|done].
      rewrite Hr in Hv. injection Hv as <-. by destruct (Hno r).
Qed.

Lemma fold_max_spec (others : list nat) : forall first,
  highest (first :: others) (fold_left Nat.max others first).
Proof.
  induction others as [|s others IH]; intros first; simpl.
  - split; [left|]. intros s Hs. apply list_elem_of_singleton in Hs. by subst.
  - destruct (IH (Nat.max first s)) as [Hin Hle]. split.
    + apply elem_of_cons in Hin as [Hin|Hin]; [|by do 2 right].
      rewrite Hin. destruct (Nat.max_spec first s) as [[_ ->]|[_ ->]];
        [right; left|left].
    + intros s' Hs'. apply elem_of_cons in Hs' as [->|Hs'].
      * etrans; [apply (Nat.le_max_l _ s)|]. apply Hle. left.
      * apply elem_of_cons in Hs' as [->|Hs'].
        -- etrans; [apply (Nat.le_max_r first)|]. apply Hle. left.
        -- apply Hle. by right.
Qed.

Lemma fold_min_spec (others : list nat) : forall first,
  lowest (first :: others) (fold_left Nat.min others first).
Proof.
  induction others as [|s others IH]; intros first; simpl.
  - split; [left|]. intros s Hs. apply list_elem_of_singleton in Hs. by subst.
  - destruct (IH (Nat.min first s)) as [Hin Hle]. split.
    + apply elem_of_cons in Hin as [Hin|Hin]; [|by do 2 right].
      rewrite Hin. destruct (Nat.min_spec first s) as [[_ ->]|[_ ->]];
        [left|right; left].
    + intros s' Hs'. apply elem_of_cons in Hs' as [->|Hs'].
      * etrans; [|apply (Nat.le_min_l _ s)]. apply Hle. left.
      * apply elem_of_cons in Hs' as [->|Hs'].
        -- etrans; [|apply (Nat.le_min_r first)]. apply Hle. left.
        -- apply Hle. by right.
Qed.

Lemma int_max_spec (scores : list nat) :
  scores ≠ [] -> ∃ high, int_max scores = mret high ∧ highest scores high.
Proof.
  destruct scores as [|first others]; [done|]. intros _.
  eexists. split; [reflexivity|apply fold_max_spec].
Qed.

Lemma int_min_spec (scores : list nat) :
  scores ≠ [] -> ∃ low, int_min scores = mret low ∧ lowest scores low.
Proof.
  destruct scores as [|first others]; [done|]. intros _.
  eexists. split; [reflexivity|apply fold_min_spec].
Qed.

Lemma int_truediv_pos (a b : Z) :
  b ≠ 0 -> int_truediv a b = mret (Float.int_truediv a b).
Proof. intros Hb. unfold int_truediv. by rewrite (proj2 (Z.eqb_neq _ _) Hb). Qed.

Lemma float_truediv_pos (x : Q) (n : Z) :
  n ≠ 0 -> float_truediv x n = mret (Float.div x (Float.of_int n)).
Proof. intros Hn. unfold float_truediv. by rewrite (proj2 (Z.eqb_neq _ _) Hn). Qed.

Lemma leb_passes (r : OMRResult) : Float.leb 60 (percentage r) ↔ passes r.
Proof. unfold passes. rewrite Is_true_true. apply leb_le. Qed.

(** The students counted as passed and as failed. *)
Lemma passed_count (rs : list OMRResult) :
  length (filter (fun p => Float.leb 60 p) (percentage <$> rs))
  = length (filter passes rs).
Proof.
  induction rs as [|r rs IH]; [done|]. rewrite fmap_cons.
  destruct (decide (passes r)) as [Hp|Hp].
  - rewrite !filter_cons_True; [simpl; by rewrite IH|done|by apply leb_passes].
  - rewrite !filter_cons_False; [done|done|]. intros H. by apply Hp, leb_passes.
Qed.

Lemma failed_count {A : Type} (P : A -> Prop) `{!∀ x, Decision (P x)} (l : list A) :
  (length l - length (filter P l))%nat = length (filter (fun x => ¬ P x) l).
Proof.
  pose proof (Permutation_length (filter_app_complement P l)) as Hlen.
  rewrite length_app in Hlen. lia.
Qed.

(** What the summary section returns on a batch whose entries with the
    key ['omr_result'] all hold a result. *)
Lemma summary_of_graded format_1f float_sum results :
  ¬ Exists holds_no_result results ->
  (omap graded results = [] →
     _create_summary_section format_1f float_sum results
     = mret [Paragraph "Summary Statistics" "CustomHeading"])
  ∧ (omap graded results ≠ [] →
     ∃ high low,
       highest (score <$> omap graded results) high
       ∧ lowest (score <$> omap graded results) low
       ∧ _create_summary_section format_1f float_sum results
         = mret [ Paragraph "Summary Statistics" "CustomHeading";
                  Table (statistics format_1f float_sum (length results)
                           (omap graded results) high low)
                        statistics_widths statistics_style;
                  Spacer 1 20 ]).
Proof.
  intros Hno. unfold _create_summary_section.
  rewrite (collect_graded "score" models.score results Hno), report_bind_ret.
  rewrite (collect_graded "percentage" models.percentage results Hno), report_bind_ret.
  set (rs := omap graded results). split.
  - intros ->. reflexivity.
  - intros Hrs.
    assert (score <$> rs ≠ []) as Hscores.
    { intros Hnil. apply fmap_nil_inv in Hnil. done. }
    rewrite bool_decide_false by done.
    assert (Z.of_nat (length rs) ≠ 0) as Hlen.
    { destruct rs; [done|]. simpl. lia. }
    rewrite !length_fmap.
    rewrite (int_truediv_pos (Z.of_nat (sum_list (score <$> rs))) _ Hlen),
      report_bind_ret.
    rewrite (float_truediv_pos _ _ Hlen), report_bind_ret.
    destruct (int_max_spec _ Hscores) as (high & -> & Hhigh).
    destruct (int_min_spec _ Hscores) as (low & -> & Hlow).
    rewrite !report_bind_ret.
    rewrite (int_truediv_pos _ _ Hlen), report_bind_ret.
    exists high, low. split; [done|]. split; [done|].
    unfold statistics. by rewrite passed_count, failed_count.
Qed.

Lemma summary_fails format_1f float_sum results :
  Exists holds_no_result results ->
  ∃ msg, _create_summary_section format_1f float_sum results = fail (AttributeError msg).
Proof.
  intros Hex. unfold _create_summary_section.
  destruct (collect_fails "score" models.score results Hex) as [msg ->].
  by exists msg.
Qed.

(** The pass mark is the mark of the grade "B". *)
Lemma passes_grade_b (r : OMRResult) : passes r ↔ grade_b_or_better r.
Proof.
  rewrite <-leb_passes, Is_true_true.
  unfold grade_b_or_better, _calculate_grade. set (p := percentage r). split.
  - intros H60.
    destruct (Float.leb 90 p); [vm_compute; lia|].
    destruct (Float.leb 80 p); [vm_compute; lia|].
    destruct (Float.leb 70 p); [vm_compute; lia|].
    rewrite H60. vm_compute. lia.
  - destruct (Float.leb 60 p) eqn:H60; [done|].
    assert (∀ k : Z, 60 <= k → Float.leb (k # 1) p = false) as Hk.
    { intros k Hk. destruct (Float.leb (k # 1) p) eqn:E; [|done].
      rewrite <-H60. symmetry. apply leb_le. apply leb_le in E.
      eapply Qle_trans; [|exact E]. unfold Qle. simpl. lia. }
    rewrite (Hk 90), (Hk 80), (Hk 70) by lia.
    destruct (Float.leb 50 p); [vm_compute; lia|].
    destruct (Float.leb 40 p); vm_compute; lia.
Qed.

Lemma detailed_table_spec float_str results :
  Forall well_formed results ->
  ∃ widths commands,
    _create_detailed_results_table float_str results
    = mret [ Paragraph "Detailed Results" "CustomHeading";
             Table (["S.No."; "Name"; "Roll Number"; "Score"; "Total"; "Percentage"; "Grade"]
                    :: omap (fun item => detail float_str item.1 item.2)
                            (enumerate results 1))
                   widths commands;
             PageBreak ].
Proof.
  intros Hwf. unfold _create_detailed_results_table.
  rewrite (rows_loop_spec float_str results 1 _ Hwf), report_bind_ret.
  simpl. by eexists _, _.
Qed.

End Entries.

(* ===================================================================== *)
(** ** Further properties of the processors *)
(* ===================================================================== *)

Section Further.
Context `{cv : OpenCV}.
Implicit Types (self : OMRProcessor) (marked key : gmap string string).

(** X1. The three statuses split the questions: the numbers of correct,
    incorrect and not attempted questions add up to the total, and the
    score is the first of the three. *)
Theorem evaluator_counts_add_up self marked key :
  let r := _evaluate_answers self marked key in
  score r = size (filter (has_status "correct") (result r))
  ∧ (size (filter (has_status "correct") (result r))
     + size (filter (has_status "incorrect") (result r))
     + size (filter (has_status "not_attempted") (result r)) = total r)%nat.
Proof.
  intros r. subst r. split; [apply evaluate_score|].
  rewrite status_counts.
  - by rewrite evaluate_total, evaluate_size_result.
  - intros q s. rewrite evaluate_result.
    destruct (key !! q); simpl; [|done]. intros [= <-]. apply status_vocabulary.
Qed.

(** X2. The evaluator reads the marks only at the questions of the key,
    and a missing mark counts as the empty marker: marks that agree there
    give the same score, total, percentage, completed marks and statuses,
    whatever the processor. *)
Theorem evaluator_reads_key_marks self1 self2 marked1 marked2 key :
  same_marks_on key marked1 marked2 →
  let r1 := _evaluate_answers self1 marked1 key in
  let r2 := _evaluate_answers self2 marked2 key in
  score r1 = score r2 ∧ total r1 = total r2 ∧ percentage r1 = percentage r2
  ∧ marked_answers r1 = marked_answers r2
  ∧ correct_answers r1 = correct_answers r2
  ∧ result r1 = result r2.
Proof. apply evaluate_same_marks. Qed.

(** X3. Evaluating the completed marks of a result against the same key
    gives the same score, total, percentage, marks and statuses again. *)
Theorem evaluator_reevaluation self marked key :
  let r := _evaluate_answers self marked key in
  let r' := _evaluate_answers self (marked_answers r) key in
  score r' = score r ∧ total r' = total r ∧ percentage r' = percentage r
  ∧ marked_answers r' = marked_answers r
  ∧ correct_answers r' = correct_answers r
  ∧ result r' = result r.
Proof.
  intros r r'. subst r r'. apply evaluate_same_marks, completed_same_marks.
Qed.

(** X4. A sheet without marks on the questions of the key scores 0 with
    percentage 0, and every question is "not_attempted". *)
Theorem evaluator_blank_marks self marked key :
  (∀ q, q ∈ dom key → default "" (marked !! q) = "") →
  let r := _evaluate_answers self marked key in
  score r = 0%nat ∧ percentage r = 0%Q
  ∧ ∀ q, q ∈ dom key → result r !! q = Some "not_attempted".
Proof. apply evaluate_blank. Qed.

(** X5. A sheet whose mark is the key's letter on every question of a
    non-empty key scores the total, with percentage 100, and every
    question is "correct". *)
Theorem evaluator_perfect_marks self marked key :
  key ≠ ∅ →
  (∀ q c, key !! q = Some c → c ≠ "" ∧ marked !! q = Some c) →
  let r := _evaluate_answers self marked key in
  score r = total r ∧ (percentage r == 100)%Q
  ∧ ∀ q, q ∈ dom key → result r !! q = Some "correct".
Proof. apply evaluate_perfect. Qed.

(** X6. On bubbles sorted by vertical position, as the detector returns
    them, the rows are separated bands: two bubbles of a row are less than
    30 apart vertically, every bubble of a row is above every bubble of a
    later row, and some bubble of a row is at least 30 above all bubbles
    of every later row. *)
Theorem rows_are_separated_bands (bubbles : list Bubble) :
  StronglySorted above bubbles →
  Forall within_band (_group_bubbles_by_rows bubbles)
  ∧ StronglySorted separated (_group_bubbles_by_rows bubbles).
Proof. apply group_rows_bands. Qed.

(** X7. Every entry of the marks comes from a valid row: its key is the
    number of a row with the configured count of bubbles, and its value is
    the letter of one of the options, never the empty marker. *)
Theorem marks_come_from_valid_rows self image (bubbles : list Bubble) :
  letters_in_range self →
  ∃ marked,
    _analyze_bubbles self image bubbles = mret marked
    ∧ ∀ q letter, marked !! q = Some letter →
        letter ≠ ""
        ∧ ∃ i row j,
            q = pretty (S i)
            ∧ _group_bubbles_by_rows bubbles !! i = Some row
            ∧ length row = questions_per_row self
            ∧ (j < questions_per_row self)%nat
            ∧ chr (ord_A + N.of_nat j) = mret letter.
Proof.
  intros Hletters.
  destruct (analyze_marks_origin self image bubbles Hletters)
    as (marked & Hrun & Hrows & Hother).
  exists marked. split; [done|]. intros q letter Hq.
  destruct (mark_origin self image bubbles marked q letter Hrows Hother Hq)
    as (i & row & j & -> & Hrow & Hlen & Hj & Hchr).
  split; [by eapply chr_nonempty|]. by exists i, row, j.
Qed.

(** X8. A question of the key whose identifier is not the decimal numeral
    of a row number (such as "01" or "Q1") is never marked: the call gives
    it the empty string and the status "not_attempted". *)
Theorem unnumbered_questions_not_attempted self image_path image key :
  imread image_path = Some image →
  letters_in_range self →
  positive_heights (_preprocess_image self image) →
  ∃ r,
    process_omr_sheet self image_path key = mret r
    ∧ total r = size key
    ∧ ∀ q c, key !! q = Some c → (∀ i, q ≠ pretty (S i)) →
        marked_answers r !! q = Some "" ∧ result r !! q = Some "not_attempted".
Proof.
  intros Hread Hletters Hh.
  destruct (process_returns self image_path image key Hread Hletters Hh)
    as (marked & found & _ & Hrun & Hcall).
  destruct (analyze_marks_origin self (_preprocess_image self image) found Hletters)
    as (marked' & Hrun' & _ & Hother).
  rewrite Hrun in Hrun'. injection Hrun' as <-.
  eexists. split; [exact Hcall|]. split; [apply evaluate_total|].
  intros q c Hc Hq.
  assert (marked !! q = None) as Hnone by (apply Hother; intros i _; apply Hq).
  rewrite evaluate_marked, evaluate_result, Hc. simpl. unfold status.
  by rewrite Hnone.
Qed.

(** X9. When no contour passes the detector's filter (a blank sheet, or
    one with specks and lines only) the call raises nothing: it returns
    score 0, percentage 0 and "not_attempted" for every question of the
    key. *)
Theorem blank_sheet_is_absorbed self image_path image key :
  imread image_path = Some image →
  positive_heights (_preprocess_image self image) →
  Forall (fun c => ¬ (area_within self c ∧ roughly_circular c))
         (external_contours (_preprocess_image self image)) →
  ∃ r,
    process_omr_sheet self image_path key = mret r
    ∧ score r = 0%nat ∧ total r = size key ∧ percentage r = 0%Q
    ∧ ∀ q, q ∈ dom key → result r !! q = Some "not_attempted".
Proof.
  intros Hread Hh Hnone. unfold process_omr_sheet. rewrite Hread.
  rewrite (detect_spec _ _ Hh), bind_ret.
  assert (filter (fun c => keeps self c)
            (external_contours (_preprocess_image self image)) = []) as ->.
  { revert Hnone. generalize (external_contours (_preprocess_image self image)).
    induction 1 as [|c cs Hc _ IH]; [done|].
    rewrite filter_cons_False; [done|]. intros Hk. by apply Hc, keeps_spec, Is_true_true. }
  eexists. split; [reflexivity|].
  destruct (evaluate_blank self ∅ key) as (Hscore & Hpercentage & Hstatus).
  { intros q _. by rewrite lookup_empty. }
  by rewrite evaluate_total.
Qed.

(** X10. The diagnostic [total_bubbles_detected] of a processed sheet is
    the number of marked questions, not of bubbles: it is at most the
    number of rows, which is at most the number of bubbles the detector
    kept, which is at most the number of contours. *)
Theorem diagnostics_count_marks self image_path image key :
  imread image_path = Some image →
  letters_in_range self →
  positive_heights (_preprocess_image self image) →
  ∃ r info found marked,
    process_omr_sheet self image_path key = mret r
    ∧ _detect_bubbles self (_preprocess_image self image) = mret found
    ∧ _analyze_bubbles self (_preprocess_image self image) found = mret marked
    ∧ processing_info r = Some info
    ∧ total_bubbles_detected info = size marked
    ∧ detection_threshold info = bubble_threshold self
    ∧ (size marked ≤ length (_group_bubbles_by_rows found))%nat
    ∧ (length (_group_bubbles_by_rows found) ≤ length found)%nat
    ∧ (length found ≤ length (external_contours (_preprocess_image self image)))%nat.
Proof.
  intros Hread Hletters Hh.
  destruct (process_returns self image_path image key Hread Hletters Hh)
    as (marked & found & Hfound & Hrun & Hcall).
  destruct (analyze_marks_origin self (_preprocess_image self image) found Hletters)
    as (marked' & Hrun' & _ & Hother).
  rewrite Hrun in Hrun'. injection Hrun' as <-.
  eexists _, _, found, marked. split; [exact Hcall|]. split; [done|]. split; [done|].
  split; [apply evaluate_info|]. simpl.
  split; [done|]. split; [done|].
  split; [by apply marks_count|]. split; [apply group_rows_count|].
  rewrite (detect_spec _ _ Hh) in Hfound. injection Hfound as <-.
  rewrite (Permutation_length (sort_by_perm _ _ _)), length_fmap.
  apply length_filter.
Qed.

(** X11. The detector returns the kept contours, each as often as it was
    found, in the order of their boxes: by [y], and by [x] among equal
    [y]. *)
Theorem detector_order self image :
  positive_heights image →
  ∃ found,
    _detect_bubbles self image = mret found
    ∧ StronglySorted position_le found
    ∧ found ≡ₚ bubble_of <$> filter (fun c => keeps self c) (external_contours image).
Proof.
  intros Hh. eexists. split; [by apply detect_spec|].
  split; [apply sort_by_position_le|apply sort_by_perm].
Qed.

(** X12. Whatever the image and the key, the stand-in processor scores at
    most 8, and a question of the key other than "1", "2", "3", "4", "5",
    "7", "8" and "10" is "not_attempted". *)
Theorem mock_scores_at_most_eight image_path key :
  let r := mock_omr_utils.process_omr_sheet image_path key in
  (score r ≤ 8)%nat
  ∧ ∀ q, q ∈ dom key → q ∉ ["1"; "2"; "3"; "4"; "5"; "7"; "8"; "10"] →
      result r !! q = Some "not_attempted".
Proof.
  intros r. subst r.
  destruct (mock_as_evaluate __init__ image_path key) as [-> ->].
  assert (∀ q, q ∉ ["1"; "2"; "3"; "4"; "5"; "7"; "8"; "10"] →
            default "" (mock_omr_utils.mock_marked_answers !! q) = "") as Hblank.
  { intros q Hq.
    destruct (mock_omr_utils.mock_marked_answers !! q) as [letter|] eqn:Hl; [|done].
    apply elem_of_list_to_map_2 in Hl. simpl.
    repeat (apply elem_of_cons in Hl as [[= -> ->]|Hl];
            [first [done | exfalso; apply Hq; set_solver]|]).
    by apply elem_of_nil in Hl. }
  split.
  - rewrite evaluate_score.
    set (marked := filter is_correct _).
    assert (dom marked ⊆ list_to_set (C := gset string)
              ["1"; "2"; "3"; "4"; "5"; "7"; "8"; "10"]) as Hsub.
    { intros q [s Hq]%elem_of_dom. apply elem_of_list_to_set.
      destruct (decide (q ∈ ["1"; "2"; "3"; "4"; "5"; "7"; "8"; "10"])) as [|Hno]; [done|].
      subst marked. apply map_lookup_filter_Some in Hq as [Hq Hs].
      unfold is_correct in Hs. simpl in Hs. subst s.
      rewrite evaluate_result in Hq.
      destruct (key !! q) as [c|]; simpl in Hq; [|done].
      unfold status in Hq. rewrite (Hblank q Hno) in Hq. done. }
    apply subseteq_size in Hsub. rewrite size_dom in Hsub.
    etrans; [exact Hsub|]. vm_compute. lia.
  - intros q [c Hc]%elem_of_dom Hq. rewrite evaluate_result, Hc. simpl.
    unfold status. by rewrite (Hblank q Hq).
Qed.

End Further.

(* ===================================================================== *)
(** ** Grades and reports *)
(* ===================================================================== *)

Section GradesAndReports.
Import reportlab pdf_generator batch_omr_app.
Context `{cv : OpenCV}.
Variables (format_1f float_str : Q -> string) (float_sum : list Q -> Q).
Variable int_accepts : string -> bool.
Variable to_csv : list (gmap string cell) -> string -> report unit.

(** X13. The grade functions of the batch application and of the report
    generator agree with the grade scale of the report configuration: a
    percentage inside the band of a grade gets that grade from both. *)
Theorem grade_in_scale_band (g : string) (lo hi : Z) (p : Q) :
  enhanced_models.grade_scale !! g = Some (lo, hi) →
  (inject_Z lo <= p)%Q → (p <= inject_Z hi)%Q →
  calculate_grade p = g ∧ _calculate_grade p = g.
Proof. intros Hg Hlo Hhi. split; by eapply grade_in_band. Qed.

(** X14. A higher percentage never gets a lower grade. *)
Theorem grade_monotone (p p' : Q) :
  (p <= p')%Q →
  (grade_rank (calculate_grade p) ≤ grade_rank (calculate_grade p'))%nat
  ∧ (grade_rank (_calculate_grade p) ≤ grade_rank (_calculate_grade p'))%nat.
Proof. intros Hp. split; by apply grade_rank_mono. Qed.

(** X15. Every percentage, also one between two bands of the scale or
    outside of them all, gets a grade of the scale, the same from both
    grade functions. *)
Theorem grade_is_label (p : Q) :
  calculate_grade p ∈ dom enhanced_models.grade_scale
  ∧ _calculate_grade p = calculate_grade p.
Proof. split; [apply grade_label|reflexivity]. Qed.

(** X16. The grade of an evaluation: a score equal to the total of a
    non-empty key is graded "A+", a score of 0 is graded "F". *)
Theorem grade_of_extremes (self : OMRProcessor) (marked key : gmap string string) :
  let r := _evaluate_answers self marked key in
  (key ≠ ∅ → score r = total r → _calculate_grade (percentage r) = "A+")
  ∧ (score r = 0%nat → _calculate_grade (percentage r) = "F").
Proof.
  intros r. subst r. split.
  - intros Hkey Hscore. rewrite evaluate_total in Hscore.
    assert (0 < size key)%nat as Hpos.
    { apply map_size_non_empty_iff in Hkey. lia. }
    eapply (grade_in_band "A+" 90 100); [reflexivity| |];
      rewrite evaluate_percentage, Hscore, (proj2 (Nat.ltb_lt _ _) Hpos);
      rewrite percentage_all by lia; done.
  - intros Hscore.
    eapply (grade_in_band "F" 0 39); [reflexivity| |];
      rewrite evaluate_percentage, Hscore; by destruct (0 <? size key)%nat.
Qed.

(** X17. The pass mark of the summary is the mark of the grade "B": in
    the statistics table the students counted as passed are the graded
    entries whose grade is "B" or better, those counted as failed are the
    graded entries with a lower grade, and the two counts add up to the
    number of graded entries. *)
Theorem summary_passed_are_grade_b results :
  ¬ Exists holds_no_result results →
  omap graded results ≠ [] →
  ∃ data widths commands,
    _create_summary_section format_1f float_sum results
    = mret [ Paragraph "Summary Statistics" "CustomHeading";
             Table data widths commands;
             Spacer 1 20 ]
    ∧ data !! 6%nat
      = Some ["Students Passed (≥60%)";
              pretty (length (filter grade_b_or_better (omap graded results)))]
    ∧ data !! 7%nat
      = Some ["Students Failed (<60%)";
              pretty (length (filter (fun r => ¬ grade_b_or_better r)
                                (omap graded results)))]
    ∧ (length (filter grade_b_or_better (omap graded results))
       + length (filter (fun r => ¬ grade_b_or_better r) (omap graded results))
       = length (omap graded results))%nat.
Proof.
  intros Hno Hrs.
  destruct (proj2 (summary_of_graded format_1f float_sum results Hno) Hrs)
    as (high & low & _ & _ & Hrun).
  eexists _, _, _. split; [exact Hrun|].
  rewrite <-(list_filter_iff passes grade_b_or_better) by apply passes_grade_b.
  rewrite <-(list_filter_iff (fun r => ¬ passes r) (fun r => ¬ grade_b_or_better r))
    by (intros r; by rewrite passes_grade_b).
  split; [reflexivity|]. split; [reflexivity|].
  rewrite <-length_app. apply Permutation_length, filter_app_complement.
Qed.

(** X18. The summary section raises nothing but [AttributeError], and
    raises it exactly when some entry of the batch has the key
    ['omr_result'] without a result under it. Otherwise it returns its
    heading alone when no entry is graded, and else the heading, the
    statistics table of the graded results and a spacer: no division is by
    zero, and [max] and [min] are not applied to an empty list. *)
Theorem summary_fails_iff results :
  ((∃ msg, _create_summary_section format_1f float_sum results
           = fail (AttributeError msg))
   ↔ Exists holds_no_result results)
  ∧ (∀ e, _create_summary_section format_1f float_sum results = fail e →
       ∃ msg, e = AttributeError msg)
  ∧ (¬ Exists holds_no_result results → omap graded results = [] →
       _create_summary_section format_1f float_sum results
       = mret [Paragraph "Summary Statistics" "CustomHeading"])
  ∧ (¬ Exists holds_no_result results → omap graded results ≠ [] →
       ∃ high low,
         highest (score <$> omap graded results) high
         ∧ lowest (score <$> omap graded results) low
         ∧ _create_summary_section format_1f float_sum results
           = mret [ Paragraph "Summary Statistics" "CustomHeading";
                    Table (statistics format_1f float_sum (length results)
                             (omap graded results) high low)
                          statistics_widths statistics_style;
                    Spacer 1 20 ]).
Proof.
  assert (¬ Exists holds_no_result results →
          ∃ elements,
            _create_summary_section format_1f float_sum results = mret elements)
    as Hreturns.
  { intros Hno.
    destruct (summary_of_graded format_1f float_sum results Hno) as [Hnone Hsome].
    destruct (decide (omap graded results = [])) as [Hrs|Hrs].
    - eexists. by apply Hnone.
    - destruct (Hsome Hrs) as (high & low & _ & _ & Hrun). by eexists. }
  split; [split|split; [|split]].
  - intros [msg Hfail].
    destruct (decide (Exists holds_no_result results)) as [|Hno]; [done|].
    destruct (Hreturns Hno) as [elements Hrun]. by rewrite Hrun in Hfail.
  - apply summary_fails.
  - intros e Hfail.
    destruct (decide (Exists holds_no_result results)) as [Hex|Hno].
    + destruct (summary_fails format_1f float_sum results Hex) as [msg Hmsg].
      rewrite Hmsg in Hfail. injection Hfail as <-. by exists msg.
    + destruct (Hreturns Hno) as [elements Hrun]. by rewrite Hrun in Hfail.
  - intros Hno. apply (summary_of_graded format_1f float_sum results Hno).
  - intros Hno. apply (summary_of_graded format_1f float_sum results Hno).
Qed.

(** X19. The placeholder that [process_all_sheets] records for a failed
    sheet makes the summary section raise [AttributeError] on [None], while
    the detailed table is built. *)
Theorem error_placeholder_breaks_summary results filename message :
  Forall well_formed results →
  error_result filename message ∈ results →
  _create_summary_section format_1f float_sum results
  = fail (AttributeError "'NoneType' object has no attribute 'score'")
  ∧ ∃ elements, _create_detailed_results_table float_str results = mret elements.
Proof.
  intros Hwf Hin. split.
  - unfold _create_summary_section.
    rewrite (collect_fails_none "score" models.score results Hwf); [done|].
    apply Exists_exists. exists (error_result filename message).
    split; [done|apply error_result_holds_no_result].
  - destruct (detailed_table_spec float_str results Hwf) as (widths & commands & ->).
    by eexists.
Qed.

(** X20. The detailed table of a well-formed batch has, after the header,
    one row for every graded entry, in batch order; the serial number of a
    row is the position of its entry in the batch, so the numbers skip the
    entries without a result. *)
Theorem detailed_table_rows results :
  Forall well_formed results →
  ∃ rows widths commands,
    _create_detailed_results_table float_str results
    = mret [ Paragraph "Detailed Results" "CustomHeading";
             Table (["S.No."; "Name"; "Roll Number"; "Score"; "Total"; "Percentage"; "Grade"]
                    :: rows) widths commands;
             PageBreak ]
    ∧ rows = omap (fun item => detail float_str item.1 item.2) (enumerate results 1)
    ∧ length rows = length (omap graded results)
    ∧ ∀ row, row ∈ rows ↔
        ∃ i entry r,
          results !! i = Some entry ∧ graded entry = Some r
          ∧ row = [ pretty (S i); student entry "name"; student entry "roll_number";
                    pretty (score r); pretty (total r);
                    float_str (percentage r) +:+ "%";
                    _calculate_grade (percentage r) ].
Proof.
  intros Hwf.
  destruct (detailed_table_spec float_str results Hwf) as (widths & commands & Hrun).
  eexists _, widths, commands. split; [exact Hrun|]. split; [done|].
  split; [apply detail_rows_length|].
  intros row. rewrite detail_rows_elem. split.
  - intros (i & entry & Hi & Hrow). exists i, entry.
    unfold detail in Hrow. destruct (graded entry) as [r|]; simpl in Hrow; [|done].
    injection Hrow as <-. by exists r.
  - intros (i & entry & r & Hi & Hr & ->). exists i, entry. split; [done|].
    unfold detail. by rewrite Hr.
Qed.

(** X21. On a well-formed batch whose question numbers [int] accepts,
    the CSV summary hands to pandas one row for every graded entry, in
    batch order, with the columns of the student and three columns for
    every question of the key. The call returns the path when the write
    returns, and raises what the write raises. *)
Theorem csv_rows results output_path :
  Forall well_formed results →
  Forall (fun item => numbered int_accepts item.2) (graded_entries results) →
  ∃ rows,
    Forall2 csv_row_of (graded_entries results) rows
    ∧ generate_summary_csv int_accepts to_csv results output_path
      = (to_csv rows output_path ≫= fun _ => mret output_path)
    ∧ (to_csv rows output_path = mret () →
         generate_summary_csv int_accepts to_csv results output_path
         = mret output_path)
    ∧ (∀ e, to_csv rows output_path = fail e →
         generate_summary_csv int_accepts to_csv results output_path = fail e).
Proof.
  intros Hwf Hnum. unfold generate_summary_csv.
  destruct (csv_loop_rows int_accepts results [] Hwf Hnum) as (rows & -> & Hrows).
  exists rows. split; [done|]. rewrite report_bind_ret. simpl.
  split; [done|]. split.
  - by intros ->.
  - intros e ->. done.
Qed.

(** X22. The CSV summary raises [ValueError], before anything is written,
    when a graded entry of a well-formed batch has a question number that
    [int] rejects. *)
Theorem csv_rejects_unnumbered results output_path :
  Forall well_formed results →
  Exists (fun item => ¬ numbered int_accepts item.2) (graded_entries results) →
  generate_summary_csv int_accepts to_csv results output_path = fail ValueError.
Proof.
  intros Hwf Hex. unfold generate_summary_csv.
  by rewrite (csv_loop_rejected int_accepts results [] Hwf Hex).
Qed.

End GradesAndReports.

(* ===================================================================== *)
(** ** The further properties on the synthetic sheet and the sample batch *)
(* ===================================================================== *)

Section Samples.
Import reportlab pdf_generator batch_omr_app.

Lemma answer_key_questions q c :
  sheet.answer_key !! q = Some c -> (q, c) ∈ [("1", "A"); ("2", "B"); ("3", "C")].
Proof. apply elem_of_list_to_map_2. Qed.

Lemma sheet_letters : letters_in_range __init__.
Proof. unfold letters_in_range. vm_compute. discriminate. Qed.

Lemma sheet_heights : positive_heights sheet.pixels.
Proof. unfold positive_heights. vm_compute. repeat constructor. Qed.

Lemma graded_sheet_well_formed name roll marks :
  well_formed (batch.graded_sheet name roll marks).
Proof.
  eapply graded_well_formed; [reflexivity|reflexivity|]. right. by eexists.
Qed.

Lemma batch_well_formed : Forall well_formed batch.results.
Proof.
  repeat apply Forall_cons_2;
    [apply graded_sheet_well_formed|apply error_result_well_formed
    |apply graded_sheet_well_formed|apply Forall_nil_2].
Qed.

Lemma graded_sheet_graded name roll marks :
  graded (batch.graded_sheet name roll marks)
  = Some (_evaluate_answers __init__ marks sheet.answer_key).
Proof. reflexivity. Qed.

Lemma batch_graded_entries :
  graded_entries batch.results
  = [ (batch.graded_sheet "JOHN SMITH" "2024001" sheet.marks,
       _evaluate_answers __init__ sheet.marks sheet.answer_key);
      (batch.graded_sheet "ALICE JOHNSON" "2024002" sheet.answer_key,
       _evaluate_answers __init__ sheet.answer_key sheet.answer_key) ].
Proof. reflexivity. Qed.

Lemma sheet_numbered marks :
  numbered batch.digits (_evaluate_answers __init__ marks sheet.answer_key).
Proof.
  unfold numbered. intros q c Hq.
  assert (correct_answers (_evaluate_answers __init__ marks sheet.answer_key)
          = sheet.answer_key) as Hkey.
  { unfold _evaluate_answers. by destruct (map_fold _ _ sheet.answer_key). }
  rewrite Hkey in Hq. apply answer_key_questions in Hq.
  repeat (apply elem_of_cons in Hq as [[= -> ->]|Hq]; [reflexivity|]).
  by apply elem_of_nil in Hq.
Qed.

Lemma graded_results_hold_results : ¬ Exists holds_no_result batch.graded_results.
Proof.
  intros Hex. apply Exists_exists in Hex as (entry & Hin & v & Hv & Hno).
  unfold batch.graded_results in Hin.
  repeat (apply elem_of_cons in Hin as [->|Hin];
          [unfold batch.graded_sheet in Hv; rewrite lookup_insert_eq in Hv;
           injection Hv as <-; by eapply Hno|]).
  by apply elem_of_nil in Hin.
Qed.

Lemma graded_results_graded :
  omap graded batch.graded_results
  = [ _evaluate_answers __init__ sheet.marks sheet.answer_key;
      _evaluate_answers __init__ sheet.answer_key sheet.answer_key ].
Proof. reflexivity. Qed.

End Samples.

Lemma evaluator_reads_key_marks_scenario :
  let r1 := _evaluate_answers __init__ sheet.marks sheet.answer_key in
  let r2 := _evaluate_answers __init__ (<["9" := "E"]> (delete "3" sheet.marks))
              sheet.answer_key in
  score r1 = score r2 ∧ total r1 = total r2 ∧ percentage r1 = percentage r2
  ∧ marked_answers r1 = marked_answers r2
  ∧ correct_answers r1 = correct_answers r2
  ∧ result r1 = result r2.
Proof.
  apply (evaluator_reads_key_marks __init__ __init__ sheet.marks
           (<["9" := "E"]> (delete "3" sheet.marks)) sheet.answer_key).
  intros q [c Hq%answer_key_questions]%elem_of_dom.
  repeat (apply elem_of_cons in Hq as [[= -> ->]|Hq]; [reflexivity|]).
  by apply elem_of_nil in Hq.
Defined.

Lemma evaluator_blank_marks_scenario :
  let r := _evaluate_answers __init__ {[ "7" := "A" ]} sheet.answer_key in
  score r = 0%nat ∧ percentage r = 0%Q
  ∧ ∀ q, q ∈ dom sheet.answer_key → result r !! q = Some "not_attempted".
Proof.
  apply (evaluator_blank_marks __init__ {[ "7" := "A" ]} sheet.answer_key).
  intros q [c Hq%answer_key_questions]%elem_of_dom.
  repeat (apply elem_of_cons in Hq as [[= -> ->]|Hq]; [reflexivity|]).
  by apply elem_of_nil in Hq.
Defined.

Lemma evaluator_perfect_marks_scenario :
  let r := _evaluate_answers __init__ sheet.answer_key sheet.answer_key in
  score r = total r ∧ (percentage r == 100)%Q
  ∧ ∀ q, q ∈ dom sheet.answer_key → result r !! q = Some "correct".
Proof.
  apply (evaluator_perfect_marks __init__ sheet.answer_key sheet.answer_key).
  - intros Hempty.
    assert (sheet.answer_key !! "1" = None) as Hnone by (by rewrite Hempty).
    vm_compute in Hnone. discriminate Hnone.
  - intros q c Hq. pose proof Hq as Hin%answer_key_questions.
    repeat (apply elem_of_cons in Hin as [[= -> ->]|Hin]; [by split|]).
    by apply elem_of_nil in Hin.
Defined.

Lemma rows_are_separated_bands_on_sheet :
  Forall within_band (_group_bubbles_by_rows sheet.bubbles)
  ∧ StronglySorted separated (_group_bubbles_by_rows sheet.bubbles).
Proof.
  apply (rows_are_separated_bands sheet.bubbles).
  apply (detect_sorted __init__ sheet.pixels). vm_compute. reflexivity.
Defined.

Lemma marks_come_from_valid_rows_on_sheet :
  ∃ marked,
    _analyze_bubbles __init__ sheet.pixels sheet.bubbles = mret marked
    ∧ ∀ q letter, marked !! q = Some letter →
        letter ≠ ""
        ∧ ∃ i row j,
            q = pretty (S i)
            ∧ _group_bubbles_by_rows sheet.bubbles !! i = Some row
            ∧ length row = questions_per_row __init__
            ∧ (j < questions_per_row __init__)%nat
            ∧ chr (ord_A + N.of_nat j) = mret letter.
Proof.
  apply (marks_come_from_valid_rows __init__ sheet.pixels sheet.bubbles).
  unfold letters_in_range. vm_compute. discriminate.
Defined.

Lemma unnumbered_questions_on_sheet :
  ∃ r,
    process_omr_sheet __init__ "sheet.png" (<["01" := "A"]> sheet.answer_key) = mret r
    ∧ total r = size (<["01" := "A"]> sheet.answer_key)
    ∧ ∀ q c, <["01" := "A"]> sheet.answer_key !! q = Some c → (∀ i, q ≠ pretty (S i)) →
        marked_answers r !! q = Some "" ∧ result r !! q = Some "not_attempted".
Proof.
  eapply (unnumbered_questions_not_attempted __init__ "sheet.png").
  - reflexivity.
  - unfold letters_in_range. vm_compute. discriminate.
  - unfold positive_heights. vm_compute. repeat constructor.
Defined.

Lemma blank_sheet_on_smudged_sheet :
  ∃ r,
    process_omr_sheet (cv := smudged.cv) __init__ "smudged.png" sheet.answer_key = mret r
    ∧ score r = 0%nat ∧ total r = size sheet.answer_key ∧ percentage r = 0%Q
    ∧ ∀ q, q ∈ dom sheet.answer_key → result r !! q = Some "not_attempted".
Proof.
  eapply (blank_sheet_is_absorbed (cv := smudged.cv) __init__ "smudged.png").
  - reflexivity.
  - unfold positive_heights. vm_compute. repeat constructor.
  - repeat apply Forall_cons_2; [| |apply Forall_nil_2];
      intros Hkept%keeps_spec; vm_compute in Hkept; discriminate Hkept.
Defined.

Lemma diagnostics_on_sheet :
  ∃ r info found marked,
    process_omr_sheet __init__ "sheet.png" sheet.answer_key = mret r
    ∧ _detect_bubbles __init__ (_preprocess_image __init__ sheet.pixels) = mret found
    ∧ _analyze_bubbles __init__ (_preprocess_image __init__ sheet.pixels) found
      = mret marked
    ∧ processing_info r = Some info
    ∧ total_bubbles_detected info = size marked
    ∧ detection_threshold info = bubble_threshold __init__
    ∧ (size marked ≤ length (_group_bubbles_by_rows found))%nat
    ∧ (length (_group_bubbles_by_rows found) ≤ length found)%nat
    ∧ (length found
       ≤ length (external_contours (_preprocess_image __init__ sheet.pixels)))%nat.
Proof.
  eapply (diagnostics_count_marks __init__ "sheet.png").
  - reflexivity.
  - unfold letters_in_range. vm_compute. discriminate.
  - unfold positive_heights. vm_compute. repeat constructor.
Defined.

Lemma detector_order_on_sheet :
  ∃ found,
    _detect_bubbles __init__ sheet.pixels = mret found
    ∧ StronglySorted position_le found
    ∧ found ≡ₚ bubble_of <$> filter (fun c => keeps __init__ c)
                               (external_contours sheet.pixels).
Proof.
  apply (detector_order __init__ sheet.pixels).
  unfold positive_heights. vm_compute. repeat constructor.
Defined.

Lemma grade_in_scale_band_example :
  batch_omr_app.calculate_grade (131 # 2) = "B"
  ∧ pdf_generator._calculate_grade (131 # 2) = "B".
Proof.
  apply (grade_in_scale_band "B" 60 69 (131 # 2)).
  - reflexivity.
  - unfold Qle. simpl. lia.
  - unfold Qle. simpl. lia.
Defined.

Lemma grade_monotone_example :
  (grade_rank (batch_omr_app.calculate_grade 55)
   ≤ grade_rank (batch_omr_app.calculate_grade 85))%nat
  ∧ (grade_rank (pdf_generator._calculate_grade 55)
     ≤ grade_rank (pdf_generator._calculate_grade 85))%nat.
Proof.
  apply (grade_monotone 55 85). unfold Qle. simpl. lia.
Defined.

Lemma error_placeholder_in_batch :
  pdf_generator._create_summary_section batch.show batch.add_up batch.results
  = pdf_generator.fail
      (pdf_generator.AttributeError "'NoneType' object has no attribute 'score'")
  ∧ ∃ elements,
      pdf_generator._create_detailed_results_table batch.show batch.results
      = mret elements.
Proof.
  apply (error_placeholder_breaks_summary batch.show batch.show batch.add_up
           batch.results "blurred.png" "Could not load image").
  - apply batch_well_formed.
  - apply (list_elem_of_lookup_2 _ 1%nat). reflexivity.
Defined.

Lemma detailed_table_of_batch :
  ∃ rows widths commands,
    pdf_generator._create_detailed_results_table batch.show batch.results
    = mret [ reportlab.Paragraph "Detailed Results" "CustomHeading";
             reportlab.Table
               (["S.No."; "Name"; "Roll Number"; "Score"; "Total"; "Percentage"; "Grade"]
                :: rows) widths commands;
             reportlab.PageBreak ]
    ∧ rows = omap (fun item => detail batch.show item.1 item.2)
               (enumerate batch.results 1)
    ∧ length rows = length (omap graded batch.results)
    ∧ ∀ row, row ∈ rows ↔
        ∃ i entry r,
          batch.results !! i = Some entry ∧ graded entry = Some r
          ∧ row = [ pretty (S i); student entry "name"; student entry "roll_number";
                    pretty (score r); pretty (total r);
                    batch.show (percentage r) +:+ "%";
                    pdf_generator._calculate_grade (percentage r) ].
Proof.
  apply (detailed_table_rows batch.show batch.results). apply batch_well_formed.
Defined.

Lemma csv_rows_of_batch :
  ∃ rows,
    Forall2 csv_row_of (graded_entries batch.results) rows
    ∧ pdf_generator.generate_summary_csv batch.digits batch.write batch.results
        "omr_results.csv"
      = (batch.write rows "omr_results.csv" ≫= fun _ => mret "omr_results.csv")
    ∧ (batch.write rows "omr_results.csv" = mret () →
         pdf_generator.generate_summary_csv batch.digits batch.write batch.results
           "omr_results.csv"
         = mret "omr_results.csv")
    ∧ (∀ e, batch.write rows "omr_results.csv" = pdf_generator.fail e →
         pdf_generator.generate_summary_csv batch.digits batch.write batch.results
           "omr_results.csv"
         = pdf_generator.fail e).
Proof.
  apply (csv_rows batch.digits batch.write batch.results "omr_results.csv").
  - apply batch_well_formed.
  - rewrite batch_graded_entries.
    repeat apply Forall_cons_2; [apply sheet_numbered|apply sheet_numbered|apply Forall_nil_2].
Defined.

Lemma csv_rejects_named_question :
  pdf_generator.generate_summary_csv batch.digits batch.write [batch.lettered_sheet]
    "omr_results.csv"
  = pdf_generator.fail pdf_generator.ValueError.
Proof.
  apply (csv_rejects_unnumbered batch.digits batch.write [batch.lettered_sheet]
           "omr_results.csv").
  - apply Forall_cons_2; [|apply Forall_nil_2].
    eapply graded_well_formed; [reflexivity|reflexivity|by left].
  - apply Exists_cons_hd. intros Hnum.
    specialize (Hnum "Q1" "A"). simpl in Hnum.
    assert (batch.digits "Q1" = true) as Hdigits by (apply Hnum; reflexivity).
    vm_compute in Hdigits. discriminate Hdigits.
Defined.

Lemma summary_passed_in_batch :
  ∃ data widths commands,
    pdf_generator._create_summary_section batch.show batch.add_up batch.graded_results
    = mret [ reportlab.Paragraph "Summary Statistics" "CustomHeading";
             reportlab.Table data widths commands;
             reportlab.Spacer 1 20 ]
    ∧ data !! 6%nat
      = Some ["Students Passed (≥60%)";
              pretty (length (filter grade_b_or_better
                                (omap graded batch.graded_results)))]
    ∧ data !! 7%nat
      = Some ["Students Failed (<60%)";
              pretty (length (filter (fun r => ¬ grade_b_or_better r)
                                (omap graded batch.graded_results)))]
    ∧ (length (filter grade_b_or_better (omap graded batch.graded_results))
       + length (filter (fun r => ¬ grade_b_or_better r)
                   (omap graded batch.graded_results))
       = length (omap graded batch.graded_results))%nat.
Proof.
  apply (summary_passed_are_grade_b batch.show batch.add_up batch.graded_results).
  - apply graded_results_hold_results.
  - rewrite graded_results_graded. discriminate.
Defined.

Lemma summary_of_graded_batch :
  ∃ high low,
    highest (score <$> omap graded batch.graded_results) high
    ∧ lowest (score <$> omap graded batch.graded_results) low
    ∧ pdf_generator._create_summary_section batch.show batch.add_up
        batch.graded_results
      = mret [ reportlab.Paragraph "Summary Statistics" "CustomHeading";
               reportlab.Table
                 (statistics batch.show batch.add_up (length batch.graded_results)
                    (omap graded batch.graded_results) high low)
                 statistics_widths statistics_style;
               reportlab.Spacer 1 20 ].
Proof.
  apply (proj2 (proj2 (proj2 (summary_fails_iff batch.show batch.add_up
                                batch.graded_results)))).
  - apply graded_results_hold_results.
  - rewrite graded_results_graded. discriminate.
Defined.

(** The counts of the sample batch: one of the two graded sheets passes. *)
Example summary_counts_of_batch :
  ∃ data widths commands,
    pdf_generator._create_summary_section batch.show batch.add_up batch.graded_results
    = mret [ reportlab.Paragraph "Summary Statistics" "CustomHeading";
             reportlab.Table data widths commands;
             reportlab.Spacer 1 20 ]
    ∧ data !! 1%nat = Some ["Total Students"; "2"]
    ∧ data !! 4%nat = Some ["Highest Score"; "3"]
    ∧ data !! 5%nat = Some ["Lowest Score"; "1"]
    ∧ data !! 6%nat = Some ["Students Passed (≥60%)"; "1"]
    ∧ data !! 7%nat = Some ["Students Failed (<60%)"; "1"].
Proof. eexists _, _, _. split; [vm_compute; reflexivity|]. repeat split. Qed.

Lemma grade_of_extremes_scenario :
  pdf_generator._calculate_grade
    (percentage (_evaluate_answers __init__ sheet.answer_key sheet.answer_key)) = "A+"
  ∧ pdf_generator._calculate_grade
      (percentage (_evaluate_answers __init__ ∅ sheet.answer_key)) = "F".
Proof.
  split.
  - apply (proj1 (grade_of_extremes __init__ sheet.answer_key sheet.answer_key)).
    + intros Hempty.
      assert (sheet.answer_key !! "1" = None) as Hnone by (by rewrite Hempty).
      vm_compute in Hnone. discriminate Hnone.
    + vm_compute. reflexivity.
  - apply (proj2 (grade_of_extremes __init__ ∅ sheet.answer_key)).
    vm_compute. reflexivity.
Defined.
